(** * inkify: colour conversions, ANSI colours and style chains

    A shallow embedding of [src/lib/util.ts], of the two [Color] classes
    (the one that stores a partial ANSI escape sequence, here [Color], and
    the one of [src/lib/color.ts] that stores RGB components, here
    [RgbColor]) and of [src/lib/style.ts], together with the properties of
    the specification that are stated about them.

    Conventions of the embedding:
    - a JavaScript string is a [string]; each [ascii] stands for one code
      unit below 256 (the line terminators U+2028/U+2029 and the white space
      above U+00FF are therefore out of the model);
    - the numeric functions of util.ts are embedded twice. [B64] follows
      the code in binary64, on primitive floats, with NaN, the infinities
      and the rounding of every operation; it is what the code computes at
      a given input. [Util] reads the same lines in exact arithmetic,
      rationals ([Q]) for fractions and integers ([Z]) under [%]: it is
      the code wherever no operation rounds and no argument is NaN, and
      the statements on it say where that is;
    - [Math.random()] is an explicit argument, the draw [u] with
      [0 <= u < 1];
    - a [throw new Error(msg)] is the result [Throw msg];
    - arrays owned by [Style] objects live in a store, so that aliasing
      between a style and its copy is visible. *)

From Stdlib Require Import ZArith QArith Qround Qabs Lqa Lia Bool.
From Stdlib Require Import String Ascii List DecimalString.
From Stdlib Require DecimalZ.
From Stdlib Require PrimFloat SpecFloat FloatOps.
From stdpp Require Import gmap.
Import ListNotations.

Local Open Scope string_scope.
Local Open Scope Z_scope.

(** ** JavaScript values and primitives *)

Module JS.

(** The values that reach [Color.fromRGB]: an integer number, [NaN]
    (what [parseInt] gives on a chunk without digits) and [undefined]
    (a destructured array position that does not exist). *)
Inductive value : Set :=
| Int (z : Z)
| NaN
| Undefined.

(** Outcome of a call that may [throw new Error(msg)]. *)
Inductive result (A : Type) : Type :=
| Ok (a : A)
| Throw (msg : string).
Arguments Ok {A} a.
Arguments Throw {A} msg.

Definition is_ok {A} (r : result A) : bool :=
  match r with Ok _ => true | Throw _ => false end.

(** [v < k] and [v > k] with a numeric literal [k]: [undefined] converts
    to [NaN], and every comparison with [NaN] is false. *)
Definition lt (v : value) (k : Z) : bool :=
  match v with Int z => z <? k | _ => false end.

Definition gt (v : value) (k : Z) : bool :=
  match v with Int z => z >? k | _ => false end.

(** Decimal rendering of an integer number, as in a template literal. *)
Definition show_int (z : Z) : string := NilZero.string_of_int (Z.to_int z).

(** [`${v}`]. *)
Definition to_string (v : value) : string :=
  match v with
  | Int z => show_int z
  | NaN => "NaN"
  | Undefined => "undefined"
  end.

(** [s.slice(1)]. *)
Definition slice1 (s : string) : string :=
  match s with
  | EmptyString => EmptyString
  | String _ t => t
  end.

Definition code (a : ascii) : Z := Z.of_N (N_of_ascii a).

(** Line terminators: the characters the pattern [.] does not match. *)
Definition line_terminator (a : ascii) : bool :=
  (code a =? 10) || (code a =? 13).

(** The pattern [.]. *)
Definition dot (a : ascii) : bool := negb (line_terminator a).

(** All the matches of [/.{2}/g], scanning from the left: a match at the
    current position consumes two characters, a failure moves one
    character on. *)
Fixpoint scan_dot2 (s : string) : list string :=
  match s with
  | String a (String b rest as tl) =>
      if dot a && dot b
      then String a (String b EmptyString) :: scan_dot2 rest
      else scan_dot2 tl
  | _ => []
  end.

(** [s.match(/.{2}/g)]: [null] (here [None]) when nothing matches. *)
Definition match_dot2 (s : string) : option (list string) :=
  match scan_dot2 s with
  | [] => None
  | ms => Some ms
  end.

(** Value of a digit in radix 16. *)
Definition hex_digit (a : ascii) : option Z :=
  let c := code a in
  if (48 <=? c) && (c <=? 57) then Some (c - 48)
  else if (97 <=? c) && (c <=? 102) then Some (c - 87)
  else if (65 <=? c) && (c <=? 70) then Some (c - 55)
  else None.

Definition is_hex (a : ascii) : bool :=
  match hex_digit a with Some _ => true | None => false end.

(** [/^[0-9a-fA-F]{6}$/g.test(s)] on a fresh pattern object: the whole
    string is six hexadecimal digits. *)
Definition test_hex6 (s : string) : bool :=
  (String.length s =? 6)%nat && forallb is_hex (list_ascii_of_string s).

(** White space that [parseInt] skips (code units below 256). *)
Definition white_space (a : ascii) : bool :=
  let c := code a in
  ((9 <=? c) && (c <=? 13)) || (c =? 32) || (c =? 160).

Fixpoint trim_start (s : string) : string :=
  match s with
  | String a t => if white_space a then trim_start t else s
  | EmptyString => EmptyString
  end.

(** The longest prefix of radix-16 digits, as a number; [None] when the
    prefix is empty. *)
Fixpoint digits16 (acc : option Z) (s : string) : option Z :=
  match s with
  | String a t =>
      match hex_digit a with
      | Some d =>
          digits16 (Some (16 * (match acc with Some n => n | None => 0 end) + d)) t
      | None => acc
      end
  | EmptyString => acc
  end.

Definition strip_0x (s : string) : string :=
  match s with
  | String z (String x t) =>
      if (code z =? 48) && ((code x =? 120) || (code x =? 88)) then t else s
  | _ => s
  end.

(** [parseInt(s, 16)]: skip white space, read a sign, skip [0x]/[0X],
    read digits; [NaN] when there is no digit. *)
Definition parseInt16 (s : string) : value :=
  let s1 := trim_start s in
  let '(neg, s2) :=
    match s1 with
    | String a t =>
        if code a =? 45 then (true, t)
        else if code a =? 43 then (false, t)
        else (false, s1)
    | EmptyString => (false, s1)
    end in
  match digits16 None (strip_0x s2) with
  | Some n => Int (if neg then - n else n)
  | None => NaN
  end.

(** [const [r, g, b] = arr]: a missing position is [undefined]. *)
Definition at_index (arr : list value) (i : nat) : value :=
  nth i arr Undefined.

(** [a % b] on numbers, for a divisor other than zero: the quotient is
    truncated towards zero, so the remainder has the sign of the dividend. *)
Definition rem (a b : Q) : Q :=
  let q := (a / b)%Q in
  let t := if Qle_bool 0 q then Qfloor q else Qceiling q in
  (a - b * inject_Z t)%Q.

(** [Math.round]: the nearest integer, a tie going up. *)
Definition round (x : Q) : Z := Qfloor (x + (1 # 2))%Q.

(** [Math.floor]. *)
Definition floor (x : Q) : Z := Qfloor x.

(** [a < b] on fractions. *)
Definition ltq (a b : Q) : bool := negb (Qle_bool b a).

End JS.

(** ** util.ts *)

Module Util.

Definition hslToRgb (h s l : Q) : list Z :=
  let s := (s / 100)%Q in
  let l := (l / 100)%Q in
  let c := ((1 - Qabs (2 * l - 1)) * s)%Q in
  let x := (c * (1 - Qabs (JS.rem (h / 60) 2 - 1)))%Q in
  let m := (l - c / 2)%Q in
  map (fun v => JS.round ((v + m) * 255)%Q)
    (if JS.ltq h 60 then [c; x; 0%Q]
     else if JS.ltq h 120 then [x; c; 0%Q]
     else if JS.ltq h 180 then [0%Q; c; x]
     else if JS.ltq h 240 then [0%Q; x; c]
     else if JS.ltq h 300 then [x; 0%Q; c]
     else [c; 0%Q; x]).

Definition hsvToRgb (h s v : Q) : list Z :=
  let s := (s / 100)%Q in
  let v := (v / 100)%Q in
  let c := (v * s)%Q in
  let x := (c * (1 - Qabs (JS.rem (h / 60) 2 - 1)))%Q in
  let m := (v - c)%Q in
  map (fun v => JS.round ((v + m) * 255)%Q)
    (if JS.ltq h 60 then [c; x; 0%Q]
     else if JS.ltq h 120 then [x; c; 0%Q]
     else if JS.ltq h 180 then [0%Q; c; x]
     else if JS.ltq h 240 then [0%Q; x; c]
     else if JS.ltq h 300 then [x; 0%Q; c]
     else [c; 0%Q; x]).

(** [hex.slice(1)?.match(/.{2}/g)?.map((c) => parseInt(c, 16)) ?? [255, 255, 255]] *)
Definition hexToSVG (hex : string) : list JS.value :=
  match JS.match_dot2 (JS.slice1 hex) with
  | Some ms => map JS.parseInt16 ms
  | None => [JS.Int 255; JS.Int 255; JS.Int 255]
  end.

(** [rand(min, max, seed)] on integer arguments, [u] being the value of
    [Math.random()]; [%] on integers is [Z.rem], with the sign of the
    dividend. *)
Definition rand (u : Q) (min max seed : Z) : Z :=
  if (min >? max) || (max <? 0) || (min <? 0) || (seed <? 1) then -1
  else if max =? min then min
  else Z.rem (JS.floor (u * inject_Z (max * seed - min))%Q + min) (max - min) + min.

(** The default value of the [seed] parameter. *)
Definition default_seed : Z := 14327.

End Util.

(** ** util.ts in binary64 *)

Module B64.

Import PrimFloat SpecFloat FloatOps.

(** The number [m * 2 ^ e], for a value that binary64 holds exactly (it is
    rounded to the nearest otherwise). *)
Definition exact (m e : Z) : float :=
  SF2Prim (binary_normalize prec emax m e false).

(** An integer as a number. *)
Definition of_Z (z : Z) : float := exact z 0.

Definition mantissa (s : bool) (m : positive) : Z :=
  if s then Z.neg m else Z.pos m.

(** The exact value of a finite number. *)
Definition to_Q (x : float) : option Q :=
  match Prim2SF x with
  | S754_zero _ => Some 0%Q
  | S754_finite s m e =>
      Some (if 0 <=? e then inject_Z (mantissa s m * 2 ^ e)
            else Qmake (mantissa s m) (Z.to_pos (2 ^ (- e))))
  | _ => None
  end.

(** The exact value of a number that is an integer. *)
Definition to_Z (x : float) : option Z :=
  match to_Q x with
  | Some q =>
      if Qeq_bool q (inject_Z (Qfloor q)) then Some (Qfloor q) else None
  | None => None
  end.

(** [Math.floor]: NaN, the infinities, the zeros and the integers are
    returned as they are. *)
Definition floor (x : float) : float :=
  match Prim2SF x with
  | S754_finite s m e =>
      if 0 <=? e then x else of_Z (mantissa s m / 2 ^ (- e))
  | _ => x
  end.

(** [Math.round]: the integer nearest to [x], a tie going up; the result
    is [-0] for [-0.5 <= x < 0]. *)
Definition round (x : float) : float :=
  match Prim2SF x with
  | S754_finite s m e =>
      if 0 <=? e then x
      else
        let z := (mantissa s m + 2 ^ (- e - 1)) / 2 ^ (- e) in
        if z =? 0 then (if s then neg_zero else zero) else of_Z z
  | _ => x
  end.

(** [a % b]: NaN for a NaN operand, an infinite dividend or a zero
    divisor; the dividend for an infinite divisor or a zero dividend;
    otherwise the exact remainder of the truncated division, with the sign
    of the dividend. *)
Definition rem (a b : float) : float :=
  match Prim2SF a, Prim2SF b with
  | S754_nan, _ | _, S754_nan => nan
  | S754_infinity _, _ => nan
  | _, S754_zero _ => nan
  | _, S754_infinity _ => a
  | S754_zero _, _ => a
  | S754_finite sa ma ea, S754_finite sb mb eb =>
      let e0 := Z.min ea eb in
      let r := Z.rem (Z.pos ma * 2 ^ (ea - e0)) (Z.pos mb * 2 ^ (eb - e0)) in
      if r =? 0 then (if sa then neg_zero else zero)
      else exact (if sa then - r else r) e0
  end.

Local Open Scope float_scope.

Definition hslToRgb (h s l : float) : list float :=
  let s := s / 100 in
  let l := l / 100 in
  let c := (1 - abs (2 * l - 1)) * s in
  let x := c * (1 - abs (rem (h / 60) 2 - 1)) in
  let m := l - c / 2 in
  map (fun v => round ((v + m) * 255))
    (if ltb h 60 then [c; x; 0]
     else if ltb h 120 then [x; c; 0]
     else if ltb h 180 then [0; c; x]
     else if ltb h 240 then [0; x; c]
     else if ltb h 300 then [x; 0; c]
     else [c; 0; x]).

Definition hsvToRgb (h s v : float) : list float :=
  let s := s / 100 in
  let v := v / 100 in
  let c := v * s in
  let x := c * (1 - abs (rem (h / 60) 2 - 1)) in
  let m := v - c in
  map (fun v => round ((v + m) * 255))
    (if ltb h 60 then [c; x; 0]
     else if ltb h 120 then [x; c; 0]
     else if ltb h 180 then [0; c; x]
     else if ltb h 240 then [0; x; c]
     else if ltb h 300 then [x; 0; c]
     else [c; 0; x]).

(** [rand(min, max, seed)], [u] being the value of [Math.random()];
    [min > max] is [max < min], and [===] on numbers is the IEEE
    equality. *)
Definition rand (u min max seed : float) : float :=
  if ltb max min || ltb max 0 || ltb min 0 || ltb seed 1 then -1
  else if eqb max min then min
  else rem (floor (u * (max * seed - min)) + min) (max - min) + min.

End B64.

(** ** The ANSI-fragment Color class *)

Module Color.

(** A colour is its partial ANSI escape sequence; the constructor stores
    the string it is given. *)
Record t : Set := new { ansi : string }.

Definition black : t := new "0".
Definition red : t := new "1".
Definition green : t := new "2".
Definition yellow : t := new "3".
Definition blue : t := new "4".
Definition magenta : t := new "5".
Definition cyan : t := new "6".
Definition white : t := new "7".

Definition from256 (n : JS.value) : JS.result t :=
  if JS.lt n 0 || JS.gt n 255 then JS.Throw "Invalid color code."
  else JS.Ok (new ("8;5;" ++ JS.to_string n)%string).

Definition fromRGB (red green blue : JS.value) : JS.result t :=
  if JS.lt red 0 || JS.gt red 255 || JS.lt green 0 || JS.gt green 255
     || JS.lt blue 0 || JS.gt blue 255
  then JS.Throw "RGB values must be between 0 and 255."
  else JS.Ok (new ("8;2;" ++ JS.to_string red ++ ";" ++ JS.to_string green
                     ++ ";" ++ JS.to_string blue)%string).

(** The conversion is written out in the factory, not delegated to
    [Util.hslToRgb]. *)
Definition fromHSL (hue saturation lightness : Q) : JS.result t :=
  if JS.ltq hue 0 || JS.ltq 360 hue
  then JS.Throw "Hue value must be between 0 and 360."
  else if JS.ltq saturation 0 || JS.ltq 100 saturation
  then JS.Throw "Saturation value must be between 0 and 100."
  else if JS.ltq lightness 0 || JS.ltq 100 lightness
  then JS.Throw "Lightness value must be between 0 and 100."
  else
    let saturation := (saturation / 100)%Q in
    let lightness := (lightness / 100)%Q in
    let c := ((1 - Qabs (2 * lightness - 1)) * saturation)%Q in
    let x := (c * (1 - Qabs (JS.rem (hue / 60) 2 - 1)))%Q in
    let m := (lightness - c / 2)%Q in
    let rgb :=
      map (fun v => JS.Int (JS.round ((v + m) * 255)%Q))
        (if JS.ltq hue 60 then [c; x; 0%Q]
         else if JS.ltq hue 120 then [x; c; 0%Q]
         else if JS.ltq hue 180 then [0%Q; c; x]
         else if JS.ltq hue 240 then [0%Q; x; c]
         else if JS.ltq hue 300 then [x; 0%Q; c]
         else [c; 0%Q; x]) in
    fromRGB (JS.at_index rgb 0) (JS.at_index rgb 1) (JS.at_index rgb 2).

(** [typeof hex !== "string"] is false for every [hex : string]. *)
Definition fromHex (hex : string) : JS.result t :=
  if negb (JS.test_hex6 hex) then JS.Throw "Invalid hex string."
  else
    let rgb :=
      match JS.match_dot2 (JS.slice1 hex) with
      | Some ms => map JS.parseInt16 ms
      | None => [JS.Int 255; JS.Int 255; JS.Int 255]
      end in
    fromRGB (JS.at_index rgb 0) (JS.at_index rgb 1) (JS.at_index rgb 2).

(** [Color.random()]: three calls of [rand(0, 255)], one draw each, the
    seed left to its default. *)
Definition random (u1 u2 u3 : Q) : JS.result t :=
  fromRGB (JS.Int (Util.rand u1 0 255 Util.default_seed))
          (JS.Int (Util.rand u2 0 255 Util.default_seed))
          (JS.Int (Util.rand u3 0 255 Util.default_seed)).

End Color.

(** ** color.ts: the RGB-component Color class *)

Module RgbColor.

Record t : Set := mk { red : JS.value; green : JS.value; blue : JS.value }.

(** [constructor(red, green, blue)]. *)
Definition new (red green blue : JS.value) : JS.result t :=
  if JS.lt red 0 || JS.gt red 255 || JS.lt green 0 || JS.gt green 255
     || JS.lt blue 0 || JS.gt blue 255
  then JS.Throw "RGB values must be between 0 and 255."
  else JS.Ok (mk red green blue).

Definition fromHSL (hue saturation lightness : Q) : JS.result t :=
  if JS.ltq hue 0 || JS.ltq 360 hue
  then JS.Throw "Hue value must be between 0 and 360."
  else if JS.ltq saturation 0 || JS.ltq 100 saturation
  then JS.Throw "Saturation value must be between 0 and 100."
  else if JS.ltq lightness 0 || JS.ltq 100 lightness
  then JS.Throw "Lightness value must be between 0 and 100."
  else
    let rgb := map JS.Int (Util.hslToRgb hue saturation lightness) in
    new (JS.at_index rgb 0) (JS.at_index rgb 1) (JS.at_index rgb 2).

Definition fromHSV (hue saturation value : Q) : JS.result t :=
  if JS.ltq hue 0 || JS.ltq 360 hue
  then JS.Throw "Hue value must be between 0 and 360."
  else if JS.ltq saturation 0 || JS.ltq 100 saturation
  then JS.Throw "Saturation value must be between 0 and 100."
  else if JS.ltq value 0 || JS.ltq 100 value
  then JS.Throw "Value value must be between 0 and 100."
  else
    let rgb := map JS.Int (Util.hsvToRgb hue saturation value) in
    new (JS.at_index rgb 0) (JS.at_index rgb 1) (JS.at_index rgb 2).

End RgbColor.

(** ** style.ts *)

Module Style.

(** The escape character [\x1b] followed by the rest of a literal. *)
Definition x1b (s : string) : string := String (ascii_of_nat 27) s.

(** Arrays are objects: a store maps the address of an array to its
    contents. *)
Abbreviation store := (gmap nat (list string)).

(** Computations on the store. *)
Definition M (A : Type) : Type := store -> A * store.

Definition ret {A} (a : A) : M A := fun st => (a, st).

Definition bind {A B} (m : M A) (k : A -> M B) : M B :=
  fun st => let '(a, st') := m st in k a st'.

Notation "'do' x <- m ; k" := (bind m (fun x => k))
  (at level 10, x name, m at level 100, k at level 200).

(** An array literal or a spread [[...a]]: a fresh array. *)
Definition alloc (a : list string) : M nat :=
  fun st => let l := fresh (dom st) in (l, <[l := a]> st).

(** Reading the contents of an array (every address held by a [Style] is
    allocated; an address that is not reads as the empty array). *)
Definition read (l : nat) : M (list string) :=
  fun st => (default [] (st !! l), st).

(** [arr.push(x)]. *)
Definition push (l : nat) (x : string) : M unit :=
  fun st => (tt, alter (fun a => (a ++ [x])%list) l st).

(** A [Style] object; its [_chain] field refers to an array and is
    assigned by the constructor only. *)
Record t : Set := mk { _chain : nat }.

Definition RESET : string := x1b "[0m".

(** [constructor(style?: Style)]: the field initialiser [= []] runs
    first, then the body replaces the field by a copy of [style]'s array
    or by another empty array. *)
Definition new (style : option t) : M t :=
  do _ <- alloc [] ;
  do l <- match style with
          | Some s => do a <- read (_chain s) ; alloc a
          | None => alloc []
          end ;
  ret (mk l).

Definition light (this : t) : M t := do _ <- push (_chain this) (x1b "[2m") ; ret this.
Definition normal (this : t) : M t := do _ <- push (_chain this) (x1b "[22m") ; ret this.
Definition bold (this : t) : M t := do _ <- push (_chain this) (x1b "[1m") ; ret this.
Definition italic (this : t) : M t := do _ <- push (_chain this) (x1b "[3m") ; ret this.
Definition underline (this : t) : M t := do _ <- push (_chain this) (x1b "[4m") ; ret this.
Definition overline (this : t) : M t := do _ <- push (_chain this) (x1b "[53m") ; ret this.
Definition strikethrough (this : t) : M t := do _ <- push (_chain this) (x1b "[9m") ; ret this.
Definition hide (this : t) : M t := do _ <- push (_chain this) (x1b "[8m") ; ret this.

Definition foreground (this : t) (color : Color.t) : M t :=
  do _ <- push (_chain this) (x1b ("[3" ++ Color.ansi color ++ "m")%string) ; ret this.
Definition color (this : t) (c : Color.t) : M t := foreground this c.
Definition fg (this : t) (c : Color.t) : M t := foreground this c.

Definition background (this : t) (color : Color.t) : M t :=
  do _ <- push (_chain this) (x1b ("[4" ++ Color.ansi color ++ "m")%string) ; ret this.
Definition bg (this : t) (c : Color.t) : M t := background this c.

Definition invert (this : t) : M t := do _ <- push (_chain this) (x1b "[7m") ; ret this.

(** Modelled from the spec: the render operation ([render()], implicit in
    string conversion), which style.ts does not define. It concatenates
    all fragments in sequence order with no separator. *)
Definition render (this : t) : M string :=
  do a <- read (_chain this) ; ret (String.concat "" a).

End Style.

(** ** The documented legal payloads

    The colour-encoding suffixes of the specification: a 4-bit index
    [0]-[7], [8;5;<0-255>], or [8;2;<0-255>;<0-255>;<0-255>]. *)

Module Payload.

Definition semicolon (a : ascii) : bool := JS.code a =? 59.

Fixpoint fields (s : string) : list string :=
  match s with
  | EmptyString => [EmptyString]
  | String a t =>
      if semicolon a then EmptyString :: fields t
      else match fields t with
           | f :: fs => String a f :: fs
           | [] => [String a EmptyString]
           end
  end.

Definition decimal_below (bound : nat) (f : string) : bool :=
  existsb (fun n => String.eqb f (JS.show_int (Z.of_nat n))) (seq 0 bound).

(** The string is one of the three suffixes, every number in range and
    written in decimal without padding. *)
Definition legal (s : string) : bool :=
  match fields s with
  | [i] => decimal_below 8 i
  | [e; k; n] => String.eqb e "8" && String.eqb k "5" && decimal_below 256 n
  | [e; k; r; g; b] =>
      String.eqb e "8" && String.eqb k "2"
      && decimal_below 256 r && decimal_below 256 g && decimal_below 256 b
  | _ => false
  end.

End Payload.

(** ** Vocabulary of the statements *)

(** The input format of the hexadecimal factory, in the words of the
    specification: a sigil character followed by exactly six hexadecimal
    digits. *)
Definition sigil_hex6 (s : string) : bool :=
  match s with
  | EmptyString => false
  | String _ t => JS.test_hex6 t
  end.

(** The successive two-character groups of a string, a last odd character
    being left out. *)
Fixpoint groups2 (s : string) : list string :=
  match s with
  | String a (String b rest) => String a (String b EmptyString) :: groups2 rest
  | _ => []
  end.

(** The triple (255, 255, 255). *)
Definition white_triple : list JS.value := [JS.Int 255; JS.Int 255; JS.Int 255].


(** A value of [Math.random()]. *)
Definition unit_draw (q : Q) : Prop := (0 <= q)%Q /\ (q < 1)%Q.

(** [lo <= q <= hi]. *)
Definition within (lo hi q : Q) : Prop := (lo <= q)%Q /\ (q <= hi)%Q.

(** An integer of [0,255]. *)
Definition byte (n : Z) : Prop := 0 <= n <= 255.

(** The suffix of a 24-bit colour. *)
Definition rgb_suffix (r g b : Z) : string :=
  ("8;2;" ++ JS.show_int r ++ ";" ++ JS.show_int g ++ ";" ++ JS.show_int b)%string.

(** No separator inside a field. *)
Definition semicolon_free (s : string) : bool :=
  forallb (fun a => negb (Payload.semicolon a)) (list_ascii_of_string s).

(** ** The sector algorithm, in the words of the specification *)

Module SectorSpec.

Local Open Scope Q_scope.

(** [a mod b], the remainder of the floored division. *)
Definition modulo (a b : Q) : Q := a - b * inject_Z (Qfloor (a / b)).

(** [x = c * (1 - |((h/60) mod 2) - 1|)]. *)
Definition intermediate (c h : Q) : Q :=
  c * (1 - Qabs (modulo (h / 60) 2 - 1)).




(** [n] is an integer of [0,255] nearest to [y]. *)
Definition rounds_to (y : Q) (n : Z) : Prop :=
  (0 <= n <= 255)%Z /\ Qabs (y - inject_Z n) <= 1 # 2.




End SectorSpec.

(** The hue cascade that [hslToRgb], [hsvToRgb] and [Color.fromHSL] each
    write out, under a name. *)
Definition cascade (h c x : Q) : list Q :=
  if JS.ltq h 60 then [c; x; 0%Q]
  else if JS.ltq h 120 then [x; c; 0%Q]
  else if JS.ltq h 180 then [0%Q; c; x]
  else if JS.ltq h 240 then [0%Q; x; c]
  else if JS.ltq h 300 then [x; 0%Q; c]
  else [c; 0%Q; x].

(** The intermediate value as the code computes it, with [%]. *)
Definition code_intermediate (c h : Q) : Q :=
  (c * (1 - Qabs (JS.rem (h / 60) 2 - 1)))%Q.

(** The last step of the conversions: offset, scale, [Math.round]. *)
Definition to_channel (m v : Q) : Z := JS.round ((v + m) * 255)%Q.

(** The colours that the validating factories hand out: the eight palette
    colours, whatever [from256] and [fromRGB] return on integers, whatever
    [fromHSL] returns on a hue of [0,360] and percentages of [0,100] (so
    not on NaN, which is within no range), and whatever [random] returns
    on three draws. *)
Inductive factory_built : Color.t -> Prop :=
| built_palette (c : Color.t) :
    In c [Color.black; Color.red; Color.green; Color.yellow;
          Color.blue; Color.magenta; Color.cyan; Color.white] ->
    factory_built c
| built_from256 (n : Z) (c : Color.t) :
    Color.from256 (JS.Int n) = JS.Ok c -> factory_built c
| built_fromRGB (r g b : Z) (c : Color.t) :
    Color.fromRGB (JS.Int r) (JS.Int g) (JS.Int b) = JS.Ok c -> factory_built c
| built_fromHSL (h s l : Q) (c : Color.t) :
    within 0 360 h -> within 0 100 s -> within 0 100 l ->
    Color.fromHSL h s l = JS.Ok c -> factory_built c
| built_random (u1 u2 u3 : Q) (c : Color.t) :
    unit_draw u1 -> unit_draw u2 -> unit_draw u3 ->
    Color.random u1 u2 u3 = JS.Ok c -> factory_built c.

(** ** The escape fragment table *)

Module FragmentTable.

(** The attribute operations and their fragments, as the escape fragment
    table of the specification lists them. *)
Inductive attribute : Set :=
| Light | Normal | Bold | Italic | Underline | Overline | Strikethrough
| Hide | Invert.

Definition fragment (a : attribute) : string :=
  match a with
  | Light => Style.x1b "[2m"
  | Normal => Style.x1b "[22m"
  | Bold => Style.x1b "[1m"
  | Italic => Style.x1b "[3m"
  | Underline => Style.x1b "[4m"
  | Overline => Style.x1b "[53m"
  | Strikethrough => Style.x1b "[9m"
  | Hide => Style.x1b "[8m"
  | Invert => Style.x1b "[7m"
  end.

(** The method of the class that carries out an attribute operation. *)
Definition method (a : attribute) : Style.t -> Style.M Style.t :=
  match a with
  | Light => Style.light
  | Normal => Style.normal
  | Bold => Style.bold
  | Italic => Style.italic
  | Underline => Style.underline
  | Overline => Style.overline
  | Strikethrough => Style.strikethrough
  | Hide => Style.hide
  | Invert => Style.invert
  end.

End FragmentTable.

(** A fluent chain of attribute calls [this.a1().a2()...]. *)
Fixpoint chain_calls (attrs : list FragmentTable.attribute) (this : Style.t)
  : Style.M Style.t :=
  match attrs with
  | [] => Style.ret this
  | a :: rest => Style.bind (FragmentTable.method a this) (chain_calls rest)
  end.

(** Every channel of an RGB-component colour is an integer of [0,255]. *)
Definition byte_channels (c : RgbColor.t) : Prop :=
  exists r g b,
    byte r /\ byte g /\ byte b
    /\ c = RgbColor.mk (JS.Int r) (JS.Int g) (JS.Int b).

(** The RGB-component colours that the constructor hands out on integers
    and the factories of [RgbColor] on a hue of [0,360] and percentages of
    [0,100]. *)
Inductive rgb_built : RgbColor.t -> Prop :=
| rgb_built_new (r g b : Z) (c : RgbColor.t) :
    RgbColor.new (JS.Int r) (JS.Int g) (JS.Int b) = JS.Ok c -> rgb_built c
| rgb_built_fromHSL (h s l : Q) (c : RgbColor.t) :
    within 0 360 h -> within 0 100 s -> within 0 100 l ->
    RgbColor.fromHSL h s l = JS.Ok c -> rgb_built c
| rgb_built_fromHSV (h s v : Q) (c : RgbColor.t) :
    within 0 360 h -> within 0 100 s -> within 0 100 v ->
    RgbColor.fromHSV h s v = JS.Ok c -> rgb_built c.

(** ** The sector algorithm against the binary64 code *)










(** The draw 1/2 and the draw [1 - 3 * 2^-52]. *)
Definition half_draw : PrimFloat.float := B64.exact 1 (-1).



(** ** Vocabulary of the further properties *)

(** What the range guards of [from256] and [fromRGB] let through: an
    integer of [0,255], and also [NaN] and [undefined], on which every
    comparison is false. *)
Definition passes_guard (v : JS.value) : bool :=
  match v with
  | JS.Int z => (0 <=? z) && (z <=? 255)
  | _ => true
  end.

Definition is_int (v : JS.value) : bool :=
  match v with JS.Int _ => true | _ => false end.

(** The eight colours of the 4-bit palette. *)
Definition palette : list Color.t :=
  [Color.black; Color.red; Color.green; Color.yellow;
   Color.blue; Color.magenta; Color.cyan; Color.white].

(** The three range errors of the HSL factory. *)
Definition hue_error : string := "Hue value must be between 0 and 360.".
Definition saturation_error : string :=
  "Saturation value must be between 0 and 100.".
Definition lightness_error : string :=
  "Lightness value must be between 0 and 100.".

(** ** Calls on a style *)

Module Calls.

(** A call of one of the chaining methods, with its argument. *)
Inductive call : Set :=
| Attribute (a : FragmentTable.attribute)
| Foreground (c : Color.t)
| ColorOf (c : Color.t)
| Fg (c : Color.t)
| Background (c : Color.t)
| Bg (c : Color.t).

(** The method of the class that the call runs. *)
Definition perform (c : call) (this : Style.t) : Style.M Style.t :=
  match c with
  | Attribute a => FragmentTable.method a this
  | Foreground col => Style.foreground this col
  | ColorOf col => Style.color this col
  | Fg col => Style.fg this col
  | Background col => Style.background this col
  | Bg col => Style.bg this col
  end.

(** The fragment of the call: the table's fragment of an attribute, the
    selector 3 or 4 before the colour's suffix for a colour. *)
Definition appended (c : call) : string :=
  match c with
  | Attribute a => FragmentTable.fragment a
  | Foreground col | ColorOf col | Fg col =>
      Style.x1b ("[3" ++ Color.ansi col ++ "m")
  | Background col | Bg col =>
      Style.x1b ("[4" ++ Color.ansi col ++ "m")
  end.

(** A fluent chain of calls [this.m1(..).m2(..)...]. *)
Fixpoint perform_all (cs : list call) (this : Style.t) : Style.M Style.t :=
  match cs with
  | [] => Style.ret this
  | c :: rest => Style.bind (perform c this) (perform_all rest)
  end.

(** An escape sequence of the SGR family: [\x1b[], parameters, [m]. *)
Definition sgr_shaped (f : string) : Prop :=
  exists body : string, f = Style.x1b ("[" ++ body ++ "m").

End Calls.

(** * Properties *)

(** ** Hexadecimal strings *)

Section HexStrings.

Lemma scan_dot2_short (s : string) :
  (String.length s < 2)%nat -> JS.scan_dot2 s = [].
Proof.
  destruct s as [|a [|b r]]; simpl; intros H; try reflexivity; lia.
Qed.

(** On a string without line terminators the scan is the plain grouping
    by two. *)
Lemma scan_dot2_groups2 (s : string) :
  forallb JS.dot (list_ascii_of_string s) = true ->
  JS.scan_dot2 s = groups2 s.
Proof.
  revert s.
  fix IH 1.
  intros [|a [|b r]]; simpl; intros H; try reflexivity.
  apply andb_prop in H as [Ha H].
  apply andb_prop in H as [Hb H].
  rewrite Ha, Hb; simpl.
  f_equal.
  apply IH, H.
Qed.

Lemma length_groups2 (s : string) :
  List.length (groups2 s) = Nat.div2 (String.length s).
Proof.
  revert s.
  fix IH 1.
  intros [|a [|b r]]; simpl; try reflexivity.
  f_equal.
  apply IH.
Qed.

Lemma groups2_nonempty (s : string) :
  (2 <= String.length s)%nat -> groups2 s <> [].
Proof.
  destruct s as [|a [|b r]]; simpl; intros H; try lia; discriminate.
Qed.

End HexStrings.

(** C1. Building a Color from ["#ff5733"] does not succeed: the factory
    throws "Invalid hex string.", because its pattern leaves no room for the
    sigil that the rest of the body drops. The low-level conversion and
    [fromRGB] do yield the expected suffix [8;2;255;87;51]. *)
Theorem fromHex_rejects_sigil_string :
  Color.fromHex "#ff5733" = JS.Throw "Invalid hex string."
  /\ Util.hexToSVG "#ff5733" = [JS.Int 255; JS.Int 87; JS.Int 51]
  /\ Color.fromRGB (JS.Int 255) (JS.Int 87) (JS.Int 51)
     = JS.Ok (Color.new "8;2;255;87;51").
Proof.
  repeat split; reflexivity.
Qed.

Section HexFactory.

(** What being a radix-16 digit excludes. *)
Lemma is_hex_inv (a : ascii) :
  JS.is_hex a = true ->
  exists d, JS.hex_digit a = Some d /\ 0 <= d <= 15
            /\ JS.dot a = true /\ JS.white_space a = false
            /\ (JS.code a =? 45) = false /\ (JS.code a =? 43) = false
            /\ (JS.code a =? 120) = false /\ (JS.code a =? 88) = false.
Proof.
  unfold JS.is_hex, JS.hex_digit, JS.dot, JS.line_terminator, JS.white_space.
  set (c := JS.code a).
  destruct (Z.leb_spec 48 c), (Z.leb_spec c 57); simpl;
    [ intros _; exists (c - 48); repeat split; lia | | | ];
    (destruct (Z.leb_spec 97 c), (Z.leb_spec c 102); simpl;
     [ intros _; exists (c - 87); repeat split; lia | | | ];
     (destruct (Z.leb_spec 65 c), (Z.leb_spec c 70); simpl;
      [ intros _; exists (c - 55); repeat split; lia
      | discriminate | discriminate | discriminate ])).
Qed.

(** [parseInt(g, 16)] on a group of two digits is a byte. *)
Lemma parseInt16_two_digits (a b : ascii) :
  JS.is_hex a = true -> JS.is_hex b = true ->
  exists n, byte n /\ JS.parseInt16 (String a (String b EmptyString)) = JS.Int n.
Proof.
  intros Ha Hb.
  destruct (is_hex_inv a Ha) as (da & Da & Ra & _ & Wa & Ma & Pa & _ & _).
  destruct (is_hex_inv b Hb) as (db & Db & Rb & _ & _ & _ & _ & Xb & XXb).
  exists (16 * (16 * 0 + da) + db). split; [unfold byte; lia|].
  unfold JS.parseInt16, JS.trim_start, JS.strip_0x.
  rewrite Wa, Ma, Pa, Xb, XXb, andb_false_r.
  unfold JS.digits16. now rewrite Da, Db.
Qed.

(** On six digits the guard passes, the first digit is dropped, two groups
    are read and the third position of the destructuring is [undefined]. *)
Lemma fromHex_six_digits (hex : string) :
  JS.test_hex6 hex = true ->
  exists r g,
    byte r /\ byte g
    /\ Color.fromHex hex
       = JS.Ok (Color.new ("8;2;" ++ JS.show_int r ++ ";" ++ JS.show_int g
                             ++ ";undefined")%string).
Proof.
  intros H. unfold Color.fromHex. rewrite H. simpl negb. cbv iota.
  unfold JS.test_hex6 in H. apply andb_prop in H as [Hlen Hall].
  apply Nat.eqb_eq in Hlen.
  destruct hex as [|a1 [|a2 [|a3 [|a4 [|a5 [|a6 [|a7 r]]]]]]];
    try discriminate Hlen.
  simpl in Hall.
  repeat (apply andb_prop in Hall as [? Hall]).
  destruct (parseInt16_two_digits a2 a3) as (r & Hr & Er); try assumption.
  destruct (parseInt16_two_digits a4 a5) as (g & Hg & Eg); try assumption.
  exists r, g. split; [exact Hr|]. split; [exact Hg|].
  unfold JS.slice1, JS.match_dot2, JS.scan_dot2.
  destruct (is_hex_inv a2) as (_ & _ & _ & D2 & _); [assumption|].
  destruct (is_hex_inv a3) as (_ & _ & _ & D3 & _); [assumption|].
  destruct (is_hex_inv a4) as (_ & _ & _ & D4 & _); [assumption|].
  destruct (is_hex_inv a5) as (_ & _ & _ & D5 & _); [assumption|].
  rewrite D2, D3, D4, D5. simpl andb. cbv iota.
  unfold map, JS.at_index, nth. rewrite Er, Eg.
  unfold Color.fromRGB, JS.lt, JS.gt, byte in *.
  replace (r <? 0) with false by lia.
  replace (r >? 255) with false by lia.
  replace (g <? 0) with false by lia.
  replace (g >? 255) with false by lia.
  reflexivity.
Qed.

End HexFactory.

(** C2. The factory is not strict about the documented format: the string
    ["ff5733"], which has no sigil, raises nothing and builds a Color whose
    blue channel is [undefined], while the well-formed ["#ff5733"] raises.
    In general the factory raises exactly on the strings that are not six
    hexadecimal digits, and a string with a sigil never is. *)
Theorem fromHex_accepts_string_without_sigil :
  sigil_hex6 "ff5733" = false
  /\ Color.fromHex "ff5733" = JS.Ok (Color.new "8;2;245;115;undefined")
  /\ sigil_hex6 "#ff5733" = true
  /\ JS.is_ok (Color.fromHex "#ff5733") = false
  /\ (forall hex : string, JS.is_ok (Color.fromHex hex) = JS.test_hex6 hex)
  /\ (forall hex : string,
         sigil_hex6 hex = true ->
         Color.fromHex hex = JS.Throw "Invalid hex string.").
Proof.
  repeat split; try reflexivity.
  - intros hex. destruct (JS.test_hex6 hex) eqn:E.
    + destruct (fromHex_six_digits hex E) as (r & g & _ & _ & ->). reflexivity.
    + unfold Color.fromHex. now rewrite E.
  - intros [|a t] H; [discriminate H|].
    unfold sigil_hex6, JS.test_hex6 in H.
    apply andb_prop in H as [Hlen _]. apply Nat.eqb_eq in Hlen.
    unfold Color.fromHex, JS.test_hex6.
    replace (String.length (String a t) =? 6)%nat with false; [reflexivity|].
    symmetry. apply Nat.eqb_neq. simpl. lia.
Qed.

Lemma fromHex_accepts_string_without_sigil_witness :
  Color.fromHex "#00ff00" = JS.Throw "Invalid hex string.".
Proof.
  apply (proj2 (proj2 (proj2 (proj2 (proj2
           fromHex_accepts_string_without_sigil))))).
  reflexivity.
Defined.

(** C3, as stated, fails: ["#ff"] is malformed and [hexToSVG] answers
    [[255]], a single number, not the white triple. *)
Lemma hexToSVG_malformed_not_white :
  ~ (forall hex : string,
        sigil_hex6 hex = false -> Util.hexToSVG hex = white_triple).
Proof.
  intros H.
  specialize (H "#ff" eq_refl).
  discriminate H.
Qed.

(** C3, amended. A string of fewer than three characters is answered by
    the white triple. A longer string without line terminators, malformed or
    not, never is: the result holds [parseInt(g, 16)] for each of the
    two-character groups [g] that follow the first character. *)
Theorem hexToSVG_fallback_only_when_no_group (hex : string) :
  ((String.length hex < 3)%nat -> Util.hexToSVG hex = white_triple)
  /\ ((3 <= String.length hex)%nat ->
      forallb JS.dot (list_ascii_of_string hex) = true ->
      Util.hexToSVG hex = map JS.parseInt16 (groups2 (JS.slice1 hex))
      /\ List.length (Util.hexToSVG hex) = Nat.div2 (String.length hex - 1)).
Proof.
  split.
  - intros Hlen.
    unfold Util.hexToSVG, JS.match_dot2.
    rewrite scan_dot2_short; [reflexivity|].
    destruct hex; simpl in *; lia.
  - intros Hlen Hdot.
    assert (Hs : JS.scan_dot2 (JS.slice1 hex) = groups2 (JS.slice1 hex)).
    { apply scan_dot2_groups2.
      destruct hex as [|a r]; simpl in *; [reflexivity|].
      apply andb_prop in Hdot as [_ Hdot]; exact Hdot. }
    assert (Hne : groups2 (JS.slice1 hex) <> []).
    { apply groups2_nonempty. destruct hex; simpl in *; lia. }
    assert (He : Util.hexToSVG hex = map JS.parseInt16 (groups2 (JS.slice1 hex))).
    { unfold Util.hexToSVG, JS.match_dot2. rewrite Hs.
      destruct (groups2 (JS.slice1 hex)); [contradiction|reflexivity]. }
    split; [exact He|].
    rewrite He, length_map, length_groups2.
    destruct hex; simpl; [reflexivity|].
    now rewrite Nat.sub_0_r.
Qed.

Lemma hexToSVG_fallback_only_when_no_group_witness :
  Util.hexToSVG "#a" = white_triple
  /\ Util.hexToSVG "#gggggg" = [JS.NaN; JS.NaN; JS.NaN].
Proof.
  split.
  - apply (proj1 (hexToSVG_fallback_only_when_no_group "#a")). simpl. lia.
  - apply (proj2 (hexToSVG_fallback_only_when_no_group "#gggggg")).
    + simpl. lia.
    + reflexivity.
Defined.

(** ** The bounded random integer *)

Section Rand.

Variables (u : Q) (min max seed : Z).




End Rand.

(** C7. The sentinel contract is broken by a NaN argument: [rand(NaN, 5, 1)]
    and [rand(0, 5, NaN)] violate the preconditions, yet every comparison
    of the guard is false on NaN and the function returns NaN, which is
    not [-1]. The guard does catch [rand(10, 5, 1)], which is [-1], and
    [rand(5, 5, 1)] is [5]. *)
Theorem rand_returns_nan_on_nan_argument :
  B64.rand half_draw PrimFloat.nan (B64.of_Z 5) (B64.of_Z 1) = PrimFloat.nan
  /\ B64.rand half_draw (B64.of_Z 0) (B64.of_Z 5) PrimFloat.nan = PrimFloat.nan
  /\ PrimFloat.eqb PrimFloat.nan (B64.of_Z (-1)) = false
  /\ B64.to_Z PrimFloat.nan = None
  /\ B64.rand half_draw (B64.of_Z 10) (B64.of_Z 5) (B64.of_Z 1) = B64.of_Z (-1)
  /\ B64.rand half_draw (B64.of_Z 5) (B64.of_Z 5) (B64.of_Z 1) = B64.of_Z 5.
Proof.
  repeat split; vm_compute; reflexivity.
Qed.

(** ** Factories of the Color class *)

Lemma fromRGB_bytes (r g b : Z) :
  byte r -> byte g -> byte b ->
  Color.fromRGB (JS.Int r) (JS.Int g) (JS.Int b)
  = JS.Ok (Color.new (rgb_suffix r g b)).
Proof.
  unfold byte, Color.fromRGB; intros Hr Hg Hb; simpl.
  replace (r <? 0) with false by lia.
  replace (r >? 255) with false by lia.
  replace (g <? 0) with false by lia.
  replace (g >? 255) with false by lia.
  replace (b <? 0) with false by lia.
  replace (b >? 255) with false by lia.
  reflexivity.
Qed.

Lemma fromRGB_ok_inv (r g b : Z) (c : Color.t) :
  Color.fromRGB (JS.Int r) (JS.Int g) (JS.Int b) = JS.Ok c ->
  byte r /\ byte g /\ byte b /\ c = Color.new (rgb_suffix r g b).
Proof.
  unfold byte, Color.fromRGB; simpl.
  destruct (r <? 0) eqn:E1; [discriminate|].
  destruct (r >? 255) eqn:E2; [discriminate|].
  destruct (g <? 0) eqn:E3; [discriminate|].
  destruct (g >? 255) eqn:E4; [discriminate|].
  destruct (b <? 0) eqn:E5; [discriminate|].
  destruct (b >? 255) eqn:E6; [discriminate|].
  simpl. intros H; injection H as <-.
  repeat split; lia.
Qed.




(** *** Legal payloads *)

Section LegalPayload.

Lemma fields_semicolon_free (a : string) :
  semicolon_free a = true -> Payload.fields a = [a].
Proof.
  unfold semicolon_free.
  induction a as [|x a IH]; simpl; [reflexivity|].
  intros H. apply andb_prop in H as [Hx Ha].
  apply negb_true_iff in Hx. rewrite Hx, (IH Ha). reflexivity.
Qed.

Lemma fields_app (a rest : string) :
  semicolon_free a = true ->
  Payload.fields (a ++ String ";" rest) = a :: Payload.fields rest.
Proof.
  unfold semicolon_free.
  induction a as [|x a IH]; simpl; [reflexivity|].
  intros H. apply andb_prop in H as [Hx Ha].
  apply negb_true_iff in Hx. rewrite Hx, (IH Ha). reflexivity.
Qed.

Lemma show_int_below (bound : nat) (n : Z) :
  0 <= n < Z.of_nat bound ->
  Payload.decimal_below bound (JS.show_int n) = true.
Proof.
  intros H. unfold Payload.decimal_below.
  apply existsb_exists. exists (Z.to_nat n). split.
  - apply in_seq. lia.
  - rewrite Z2Nat.id by lia. apply String.eqb_refl.
Qed.

Lemma show_int_byte_semicolon_free (n : Z) :
  byte n -> semicolon_free (JS.show_int n) = true.
Proof.
  intros H.
  assert (Hall : forallb (fun k => semicolon_free (JS.show_int (Z.of_nat k)))
                   (seq 0 256) = true) by (vm_compute; reflexivity).
  rewrite forallb_forall in Hall.
  specialize (Hall (Z.to_nat n)).
  rewrite Z2Nat.id in Hall by (unfold byte in H; lia).
  apply Hall, in_seq. unfold byte in H. lia.
Qed.

Lemma legal_256 (n : Z) :
  byte n -> Payload.legal ("8;5;" ++ JS.show_int n) = true.
Proof.
  intros H. unfold Payload.legal.
  change ("8;5;" ++ JS.show_int n)%string
    with ("8" ++ String ";" ("5" ++ String ";" (JS.show_int n)))%string.
  rewrite !fields_app by reflexivity.
  rewrite fields_semicolon_free by now apply show_int_byte_semicolon_free.
  simpl. apply show_int_below. unfold byte in H. lia.
Qed.

Lemma legal_rgb (r g b : Z) :
  byte r -> byte g -> byte b ->
  Payload.legal (rgb_suffix r g b) = true.
Proof.
  intros Hr Hg Hb. unfold Payload.legal, rgb_suffix.
  change ("8;2;" ++ JS.show_int r ++ ";" ++ JS.show_int g ++ ";" ++ JS.show_int b)%string
    with ("8" ++ String ";" ("2" ++ String ";"
            (JS.show_int r ++ String ";"
               (JS.show_int g ++ String ";" (JS.show_int b)))))%string.
  rewrite !fields_app
    by (reflexivity || now apply show_int_byte_semicolon_free).
  rewrite fields_semicolon_free by now apply show_int_byte_semicolon_free.
  simpl.
  rewrite !show_int_below by (unfold byte in *; lia).
  reflexivity.
Qed.

End LegalPayload.

(** ** The HSL and HSV conversions *)

Section Sectors.

Local Open Scope Q_scope.

Lemma ltq_true (a b : Q) : JS.ltq a b = true -> a < b.
Proof.
  unfold JS.ltq. intros H. apply negb_true_iff in H.
  apply Qnot_le_lt. intros Hle. apply Qle_bool_iff in Hle. congruence.
Qed.

Lemma ltq_false (a b : Q) : JS.ltq a b = false -> b <= a.
Proof.
  unfold JS.ltq. intros H. apply negb_false_iff in H.
  now apply Qle_bool_iff.
Qed.

(** On a non-negative dividend [%] is the mathematical remainder. *)
Lemma rem_modulo (a : Q) : 0 <= a -> JS.rem a 2 = SectorSpec.modulo a 2.
Proof.
  intros H. unfold JS.rem, SectorSpec.modulo.
  replace (Qle_bool 0 (a / 2)) with true; [reflexivity|].
  symmetry. apply Qle_bool_iff.
  unfold Qdiv. change (/ 2) with (1 # 2). lra.
Qed.

Lemma modulo_2_range (a : Q) :
  0 <= SectorSpec.modulo a 2 /\ SectorSpec.modulo a 2 < 2.
Proof.
  unfold SectorSpec.modulo.
  pose proof (Qfloor_le (a / 2)) as H1.
  pose proof (Qlt_floor (a / 2)) as H2.
  rewrite inject_Z_plus in H2. change (inject_Z 1) with 1 in H2.
  unfold Qdiv in *. change (/ 2) with (1 # 2) in *.
  split; lra.
Qed.

Lemma intermediate_range (c h : Q) :
  0 <= c ->
  0 <= SectorSpec.intermediate c h /\ SectorSpec.intermediate c h <= c.
Proof.
  intros Hc. unfold SectorSpec.intermediate.
  destruct (modulo_2_range (h / 60)) as [H0 H2].
  apply (Qabs_case (SectorSpec.modulo (h / 60) 2 - 1)); intros Ha; split; nra.
Qed.

Lemma code_intermediate_spec (c h : Q) :
  0 <= h -> code_intermediate c h = SectorSpec.intermediate c h.
Proof.
  intros H. unfold code_intermediate, SectorSpec.intermediate.
  rewrite rem_modulo; [reflexivity|].
  unfold Qdiv. change (/ 60) with (1 # 60). lra.
Qed.



(** Whatever the hue, the cascade is an arrangement of [c], [x] and [0]. *)
Lemma cascade_Forall (P : Q -> Prop) (h c x : Q) :
  P c -> P x -> P 0 -> Forall P (cascade h c x).
Proof.
  intros Pc Px P0. unfold cascade.
  repeat match goal with |- context [JS.ltq ?a ?b] => destruct (JS.ltq a b) end;
    repeat constructor; assumption.
Qed.

Lemma round_rounds_to (y : Q) :
  0 <= y -> y <= 255 -> SectorSpec.rounds_to y (JS.round y).
Proof.
  intros H0 H1. unfold SectorSpec.rounds_to, JS.round.
  pose proof (Qfloor_le (y + (1 # 2))) as F1.
  pose proof (Qlt_floor (y + (1 # 2))) as F2.
  rewrite inject_Z_plus in F2. change (inject_Z 1) with 1 in F2.
  split; [split|].
  - change 0%Z with (Qfloor 0). apply Qfloor_resp_le. lra.
  - change 255%Z with (Qfloor (255 + (1 # 2))). apply Qfloor_resp_le. lra.
  - apply Qabs_Qle_condition. split; lra.
Qed.

Lemma to_channel_rounds (c m v : Q) :
  0 <= m -> c + m <= 1 -> 0 <= v -> v <= c ->
  SectorSpec.rounds_to ((v + m) * 255) (to_channel m v).
Proof.
  intros Hm Hcm Hv Hvc. apply round_rounds_to; lra.
Qed.



(** For any non-negative hue the channels are bytes. *)
Lemma cascade_bytes (h c m : Q) :
  0 <= h -> 0 <= c -> 0 <= m -> c + m <= 1 ->
  Forall byte (map (to_channel m) (cascade h c (code_intermediate c h))).
Proof.
  intros H0 Hc Hm Hcm.
  rewrite code_intermediate_spec by exact H0.
  apply Forall_map.
  destruct (intermediate_range c h Hc) as [Hx0 Hxc].
  apply cascade_Forall; apply (to_channel_rounds c); lra.
Qed.

Lemma percent_unit (p : Q) : 0 <= p -> p <= 100 -> 0 <= p / 100 /\ p / 100 <= 1.
Proof.
  intros H0 H1. unfold Qdiv. change (/ 100) with (1 # 100). split; lra.
Qed.

Lemma hsl_chroma_offset (s l : Q) :
  0 <= s -> s <= 1 -> 0 <= l -> l <= 1 ->
  let c := (1 - Qabs (2 * l - 1)) * s in
  0 <= c /\ 0 <= l - c / 2 /\ c + (l - c / 2) <= 1.
Proof.
  intros Hs0 Hs1 Hl0 Hl1 c. subst c.
  unfold Qdiv. change (/ 2) with (1 # 2).
  apply (Qabs_case (2 * l - 1)); intros Ha; repeat split; nra.
Qed.

Lemma hsv_chroma_offset (s v : Q) :
  0 <= s -> s <= 1 -> 0 <= v -> v <= 1 ->
  let c := v * s in
  0 <= c /\ 0 <= v - c /\ c + (v - c) <= 1.
Proof.
  intros Hs0 Hs1 Hv0 Hv1 c. subst c. repeat split; nra.
Qed.

Lemma hslToRgb_cascade (h s l : Q) :
  Util.hslToRgb h s l
  = let c := (1 - Qabs (2 * (l / 100) - 1)) * (s / 100) in
    map (to_channel (l / 100 - c / 2)) (cascade h c (code_intermediate c h)).
Proof. reflexivity. Qed.

Lemma hsvToRgb_cascade (h s v : Q) :
  Util.hsvToRgb h s v
  = let c := (v / 100) * (s / 100) in
    map (to_channel (v / 100 - c)) (cascade h c (code_intermediate c h)).
Proof. reflexivity. Qed.

End Sectors.

Section SectorChecks.








End SectorChecks.







(** ** What the factories build *)

Section Factories.

Lemma cascade_three (h c x : Q) : exists a b d, cascade h c x = [a; b; d].
Proof.
  unfold cascade.
  repeat match goal with |- context [JS.ltq ?a ?b] => destruct (JS.ltq a b) end;
    eauto.
Qed.

(** [fromHSL] builds the colour of the channels of [Util.hslToRgb], and
    these are bytes. *)
Lemma fromHSL_ok_inv (h s l : Q) (col : Color.t) :
  Color.fromHSL h s l = JS.Ok col ->
  exists r g b,
    byte r /\ byte g /\ byte b
    /\ Util.hslToRgb h s l = [r; g; b]
    /\ col = Color.new (rgb_suffix r g b).
Proof.
  unfold Color.fromHSL.
  destruct (JS.ltq h 0) eqn:Eh0; [discriminate|].
  destruct (JS.ltq 360 h) eqn:Eh1; [discriminate|].
  destruct (JS.ltq s 0) eqn:Es0; [discriminate|].
  destruct (JS.ltq 100 s) eqn:Es1; [discriminate|].
  destruct (JS.ltq l 0) eqn:El0; [discriminate|].
  destruct (JS.ltq 100 l) eqn:El1; [discriminate|].
  apply ltq_false in Eh0, Eh1, Es0, Es1, El0, El1.
  cbv zeta. simpl orb. cbv iota.
  rewrite hslToRgb_cascade. cbv zeta.
  set (c := ((1 - Qabs (2 * (l / 100) - 1)) * (s / 100))%Q).
  set (m := (l / 100 - c / 2)%Q).
  change (if JS.ltq h 60 then _ else _)
    with (cascade h c (code_intermediate c h)).
  destruct (percent_unit s Es0 Es1) as [Hs0 Hs1].
  destruct (percent_unit l El0 El1) as [Hl0 Hl1].
  destruct (hsl_chroma_offset _ _ Hs0 Hs1 Hl0 Hl1) as (Hc & Hm & Hcm).
  pose proof (cascade_bytes h c m Eh0 Hc Hm Hcm) as Hb.
  destruct (cascade_three h c (code_intermediate c h)) as (a & b & d & E).
  rewrite E in Hb |- *. simpl in Hb |- *.
  inversion Hb as [|? ? Ha Hb1]; subst.
  inversion Hb1 as [|? ? Hb' Hb2]; subst.
  inversion Hb2 as [|? ? Hd _]; subst.
  change (JS.round ((a + m) * 255)) with (to_channel m a).
  change (JS.round ((b + m) * 255)) with (to_channel m b).
  change (JS.round ((d + m) * 255)) with (to_channel m d).
  unfold JS.at_index, nth.
  rewrite fromRGB_bytes by assumption.
  intros H; injection H as <-.
  exists (to_channel m a), (to_channel m b), (to_channel m d).
  split; [exact Ha|]. split; [exact Hb'|]. split; [exact Hd|].
  split; reflexivity.
Qed.

Lemma from256_ok_inv (n : Z) (c : Color.t) :
  Color.from256 (JS.Int n) = JS.Ok c ->
  byte n /\ c = Color.new ("8;5;" ++ JS.show_int n).
Proof.
  unfold Color.from256, byte; simpl.
  destruct (n <? 0) eqn:E1; [discriminate|].
  destruct (n >? 255) eqn:E2; [discriminate|].
  simpl. intros H; injection H as <-. split; [lia|reflexivity].
Qed.

Lemma cascade_byte_triple (h c m : Q) :
  (0 <= h)%Q -> (0 <= c)%Q -> (0 <= m)%Q -> (c + m <= 1)%Q ->
  exists r g b,
    map (to_channel m) (cascade h c (code_intermediate c h)) = [r; g; b]
    /\ byte r /\ byte g /\ byte b.
Proof.
  intros H0 Hc Hm Hcm.
  pose proof (cascade_bytes h c m H0 Hc Hm Hcm) as Hb.
  destruct (cascade_three h c (code_intermediate c h)) as (a & b & d & E).
  rewrite E in Hb |- *. simpl in Hb |- *.
  inversion Hb as [|? ? Ha Hb1]; subst.
  inversion Hb1 as [|? ? Hb' Hb2]; subst.
  inversion Hb2 as [|? ? Hd _]; subst.
  eauto 10.
Qed.

Lemma hslToRgb_bytes (h s l : Q) :
  (0 <= h)%Q -> (0 <= s)%Q -> (s <= 100)%Q -> (0 <= l)%Q -> (l <= 100)%Q ->
  exists r g b,
    Util.hslToRgb h s l = [r; g; b] /\ byte r /\ byte g /\ byte b.
Proof.
  intros Hh Hs0 Hs1 Hl0 Hl1. rewrite hslToRgb_cascade. cbv zeta.
  destruct (percent_unit s Hs0 Hs1) as [Hs0' Hs1'].
  destruct (percent_unit l Hl0 Hl1) as [Hl0' Hl1'].
  destruct (hsl_chroma_offset _ _ Hs0' Hs1' Hl0' Hl1') as (Hc & Hm & Hcm).
  now apply cascade_byte_triple.
Qed.

Lemma hsvToRgb_bytes (h s v : Q) :
  (0 <= h)%Q -> (0 <= s)%Q -> (s <= 100)%Q -> (0 <= v)%Q -> (v <= 100)%Q ->
  exists r g b,
    Util.hsvToRgb h s v = [r; g; b] /\ byte r /\ byte g /\ byte b.
Proof.
  intros Hh Hs0 Hs1 Hv0 Hv1. rewrite hsvToRgb_cascade. cbv zeta.
  destruct (percent_unit s Hs0 Hs1) as [Hs0' Hs1'].
  destruct (percent_unit v Hv0 Hv1) as [Hv0' Hv1'].
  destruct (hsv_chroma_offset _ _ Hs0' Hs1' Hv0' Hv1') as (Hc & Hm & Hcm).
  now apply cascade_byte_triple.
Qed.

Lemma rgb_new_ok_inv (r g b : Z) (c : RgbColor.t) :
  RgbColor.new (JS.Int r) (JS.Int g) (JS.Int b) = JS.Ok c -> byte_channels c.
Proof.
  unfold byte_channels, byte, RgbColor.new; simpl.
  destruct (r <? 0) eqn:E1; [discriminate|].
  destruct (r >? 255) eqn:E2; [discriminate|].
  destruct (g <? 0) eqn:E3; [discriminate|].
  destruct (g >? 255) eqn:E4; [discriminate|].
  destruct (b <? 0) eqn:E5; [discriminate|].
  destruct (b >? 255) eqn:E6; [discriminate|].
  simpl. intros H; injection H as <-.
  exists r, g, b. repeat split; lia.
Qed.

Lemma rgb_fromHSL_ok_inv (h s l : Q) (c : RgbColor.t) :
  RgbColor.fromHSL h s l = JS.Ok c -> byte_channels c.
Proof.
  unfold RgbColor.fromHSL.
  destruct (JS.ltq h 0) eqn:Eh0; [discriminate|].
  destruct (JS.ltq 360 h) eqn:Eh1; [discriminate|].
  destruct (JS.ltq s 0) eqn:Es0; [discriminate|].
  destruct (JS.ltq 100 s) eqn:Es1; [discriminate|].
  destruct (JS.ltq l 0) eqn:El0; [discriminate|].
  destruct (JS.ltq 100 l) eqn:El1; [discriminate|].
  apply ltq_false in Eh0, Es0, Es1, El0, El1.
  destruct (hslToRgb_bytes h s l) as (r & g & b & -> & _); try assumption.
  simpl. apply rgb_new_ok_inv.
Qed.

Lemma rgb_fromHSV_ok_inv (h s v : Q) (c : RgbColor.t) :
  RgbColor.fromHSV h s v = JS.Ok c -> byte_channels c.
Proof.
  unfold RgbColor.fromHSV.
  destruct (JS.ltq h 0) eqn:Eh0; [discriminate|].
  destruct (JS.ltq 360 h) eqn:Eh1; [discriminate|].
  destruct (JS.ltq s 0) eqn:Es0; [discriminate|].
  destruct (JS.ltq 100 s) eqn:Es1; [discriminate|].
  destruct (JS.ltq v 0) eqn:Ev0; [discriminate|].
  destruct (JS.ltq 100 v) eqn:Ev1; [discriminate|].
  apply ltq_false in Eh0, Es0, Es1, Ev0, Ev1.
  destruct (hsvToRgb_bytes h s v) as (r & g & b & -> & _); try assumption.
  simpl. apply rgb_new_ok_inv.
Qed.

End Factories.

(** C4, as stated, fails: the constructor stores the string it is given,
    so [new Color("8;2;256;0;0")] is a Color whose red channel is 256. *)
Lemma constructor_stores_any_payload :
  ~ (forall ansi : string,
        Payload.legal (Color.ansi (Color.new ansi)) = true).
Proof.
  intros H. specialize (H "8;2;256;0;0"). vm_compute in H. discriminate H.
Qed.

(** C4, amended. Every colour handed out by a palette factory, by
    [from256] or [fromRGB] on integers, by [fromHSL] on a hue of [0,360]
    and percentages of [0,100], or by [random] carries a payload of the
    documented legal range, and [from256] and [fromRGB] throw on an integer
    outside [0,255]. The RGB-component class validates in its constructor:
    every colour it builds from integers, or through its HSL and HSV
    factories on a hue of [0,360] and percentages of [0,100], has byte
    channels. *)
Theorem factory_built_legal_payload :
  (forall c : Color.t,
      factory_built c -> Payload.legal (Color.ansi c) = true)
  /\ (forall n : Z,
         ~ byte n -> Color.from256 (JS.Int n) = JS.Throw "Invalid color code.")
  /\ (forall r g b : Z,
         ~ (byte r /\ byte g /\ byte b) ->
         Color.fromRGB (JS.Int r) (JS.Int g) (JS.Int b)
         = JS.Throw "RGB values must be between 0 and 255.")
  /\ (forall c : RgbColor.t, rgb_built c -> byte_channels c).
Proof.
  split; [|split; [|split]].
  - intros c [c' Hin | n c' H | r g b c' H | h s l c' _ _ _ H
              | u1 u2 u3 c' _ _ _ H].
    + simpl in Hin.
      repeat (destruct Hin as [<- | Hin]; [reflexivity|]).
      contradiction.
    + apply from256_ok_inv in H as [Hn ->]. simpl. now apply legal_256.
    + apply fromRGB_ok_inv in H as (Hr & Hg & Hb & ->). simpl.
      now apply legal_rgb.
    + apply fromHSL_ok_inv in H as (r & g & b & Hr & Hg & Hb & _ & ->).
      simpl. now apply legal_rgb.
    + unfold Color.random in H.
      apply fromRGB_ok_inv in H as (Hr & Hg & Hb & ->). simpl.
      now apply legal_rgb.
  - intros n H. unfold Color.from256, byte in *; simpl.
    destruct (n <? 0) eqn:E1; [reflexivity|].
    destruct (n >? 255) eqn:E2; [reflexivity|].
    exfalso; apply H; lia.
  - intros r g b H. unfold Color.fromRGB, byte in *; simpl.
    destruct (r <? 0) eqn:E1; [reflexivity|].
    destruct (r >? 255) eqn:E2; [reflexivity|].
    destruct (g <? 0) eqn:E3; [reflexivity|].
    destruct (g >? 255) eqn:E4; [reflexivity|].
    destruct (b <? 0) eqn:E5; [reflexivity|].
    destruct (b >? 255) eqn:E6; [reflexivity|].
    exfalso; apply H; lia.
  - intros c [r g b c' H | h s l c' _ _ _ H | h s v c' _ _ _ H].
    + now apply rgb_new_ok_inv in H.
    + now apply rgb_fromHSL_ok_inv in H.
    + now apply rgb_fromHSV_ok_inv in H.
Qed.

Lemma factory_built_legal_payload_witness :
  Payload.legal "8;2;255;87;51" = true
  /\ Payload.legal "8;2;255;0;0" = true
  /\ Color.from256 (JS.Int 256) = JS.Throw "Invalid color code."
  /\ Color.fromRGB (JS.Int 0) (JS.Int (-1)) (JS.Int 0)
     = JS.Throw "RGB values must be between 0 and 255."
  /\ byte_channels (RgbColor.mk (JS.Int 0) (JS.Int 128) (JS.Int 255)).
Proof.
  destruct factory_built_legal_payload as (Hlegal & H256 & Hrgb & Hchan).
  split; [|split; [|split; [|split]]].
  - apply (Hlegal (Color.new "8;2;255;87;51")).
    apply (built_fromRGB 255 87 51). reflexivity.
  - apply (Hlegal (Color.new "8;2;255;0;0")).
    apply (built_fromHSL 360 100 50);
      [unfold within; split; discriminate ..| reflexivity].
  - apply H256. unfold byte. lia.
  - apply Hrgb. unfold byte. lia.
  - apply Hchan. apply (rgb_built_new 0 128 255). reflexivity.
Defined.

(** ** Style chains *)

Section StyleChains.

Implicit Types (st : Style.store) (this : Style.t) (arr : list string).

Lemma alloc_fresh st arr : st !! fst (Style.alloc arr st) = None.
Proof.
  unfold Style.alloc; simpl.
  apply not_elem_of_dom, is_fresh.
Qed.

Lemma alloc_lookup st arr :
  snd (Style.alloc arr st) !! fst (Style.alloc arr st) = Some arr.
Proof. unfold Style.alloc; simpl. apply lookup_insert_eq. Qed.

Lemma alloc_frame st arr (l : nat) :
  is_Some (st !! l) -> snd (Style.alloc arr st) !! l = st !! l.
Proof.
  intros Hl. unfold Style.alloc; simpl.
  apply lookup_insert_ne. intros E.
  pose proof (alloc_fresh st arr) as Hf. unfold Style.alloc in Hf; simpl in Hf.
  rewrite E in Hf. rewrite Hf in Hl. now destruct Hl.
Qed.

(** [push] on an allocated array replaces its contents by the contents
    with one more element, and touches nothing else. *)
Lemma push_insert st (l : nat) arr (x : string) :
  st !! l = Some arr ->
  Style.push l x st = (tt, <[l := (arr ++ [x])%list]> st).
Proof.
  intros H. unfold Style.push. f_equal.
  apply map_eq. intros j.
  destruct (decide (l = j)) as [<-|Hne].
  - now rewrite lookup_alter_eq, lookup_insert_eq, H.
  - now rewrite lookup_alter_ne, lookup_insert_ne.
Qed.

Lemma method_appends (a : FragmentTable.attribute) this st arr :
  st !! Style._chain this = Some arr ->
  FragmentTable.method a this st
  = (this, <[Style._chain this := (arr ++ [FragmentTable.fragment a])%list]> st).
Proof.
  intros H.
  destruct a; simpl;
    unfold Style.light, Style.normal, Style.bold, Style.italic,
      Style.underline, Style.overline, Style.strikethrough, Style.hide,
      Style.invert, Style.bind, Style.ret;
    now rewrite (push_insert _ _ _ _ H).
Qed.

Lemma chain_calls_appends (attrs : list FragmentTable.attribute) this st arr :
  st !! Style._chain this = Some arr ->
  chain_calls attrs this st
  = (this, <[Style._chain this := (arr ++ map FragmentTable.fragment attrs)%list]> st).
Proof.
  revert st arr.
  induction attrs as [|a rest IH]; intros st arr H; simpl.
  - unfold Style.ret. rewrite app_nil_r. now rewrite insert_id.
  - unfold Style.bind. rewrite (method_appends a _ _ _ H).
    rewrite (IH _ (arr ++ [FragmentTable.fragment a])%list)
      by apply lookup_insert_eq.
    rewrite insert_insert_eq, <- app_assoc. reflexivity.
Qed.

Lemma append_associative (a b c : string) :
  ((a ++ b) ++ c = a ++ (b ++ c))%string.
Proof.
  induction a as [|x a IH]; [reflexivity|].
  change (String x ((a ++ b) ++ c) = String x (a ++ (b ++ c)))%string.
  now rewrite IH.
Qed.

Lemma concat_snoc arr (x : string) :
  String.concat "" (arr ++ [x]) = (String.concat "" arr ++ x)%string.
Proof.
  induction arr as [|y [|z arr'] IH].
  - reflexivity.
  - reflexivity.
  - change (y ++ String.concat "" ((z :: arr') ++ [x])
            = (y ++ String.concat "" (z :: arr')) ++ x)%string.
    rewrite IH. now rewrite append_associative.
Qed.

Lemma render_lookup this st arr :
  st !! Style._chain this = Some arr ->
  Style.render this st = (String.concat "" arr, st).
Proof.
  intros H. unfold Style.render, Style.bind, Style.read, Style.ret.
  now rewrite H.
Qed.

(** Allocating in a store [st0] that extends [st]. *)
Lemma alloc_extends st st0 arr :
  (forall l : nat, is_Some (st !! l) -> st0 !! l = st !! l) ->
  exists (l1 : nat) st1,
    Style.alloc arr st0 = (l1, st1)
    /\ st !! l1 = None
    /\ st1 !! l1 = Some arr
    /\ (forall l : nat, is_Some (st !! l) -> st1 !! l = st !! l).
Proof.
  intros F0.
  exists (fst (Style.alloc arr st0)), (snd (Style.alloc arr st0)).
  split; [now destruct (Style.alloc arr st0)|]. split; [|split].
  - destruct (st !! fst (Style.alloc arr st0)) eqn:El; [|reflexivity].
    assert (Hs : is_Some (st !! fst (Style.alloc arr st0)))
      by (rewrite El; eauto).
    apply F0 in Hs. rewrite alloc_fresh, El in Hs. discriminate Hs.
  - apply alloc_lookup.
  - intros l Hl. rewrite <- (F0 l Hl).
    apply alloc_frame. now rewrite (F0 l Hl).
Qed.

(** The constructor leaves the caller with a fresh array holding [arr],
    the contents of the copied style's array (or nothing), every array
    that existed before being as it was. *)
Lemma new_spec (style : option Style.t) st arr :
  match style with
  | Some s => st !! Style._chain s = Some arr
  | None => arr = []
  end ->
  exists t st',
    Style.new style st = (t, st')
    /\ st !! Style._chain t = None
    /\ st' !! Style._chain t = Some arr
    /\ (forall l : nat, is_Some (st !! l) -> st' !! l = st !! l).
Proof.
  intros H. unfold Style.new, Style.bind, Style.ret.
  destruct (Style.alloc [] st) as [l0 st0] eqn:E0.
  assert (F0 : forall l : nat, is_Some (st !! l) -> st0 !! l = st !! l).
  { intros l Hl. change st0 with (snd (l0, st0)). rewrite <- E0.
    now apply alloc_frame. }
  destruct (alloc_extends st st0 arr F0) as (l1 & st1 & E1 & N1 & L1 & F1).
  exists (Style.mk l1), st1.
  split; [|now repeat split].
  destruct style as [s|].
  - unfold Style.read. rewrite F0 by (rewrite H; eauto). rewrite H.
    change (default [] (Some arr)) with arr. now rewrite E1.
  - subst arr. now rewrite E1.
Qed.

End StyleChains.

(** C8. Each attribute method appends to the chain exactly the fragment
    that the escape fragment table lists for it and returns the same
    style; a chain of attribute calls on a new style renders to the
    fragments in call order with nothing between them; in particular
    [new Style().bold().underline()] renders to [\x1b[1m\x1b[4m]. *)
Theorem style_methods_append_in_order :
  (forall (a : FragmentTable.attribute) (this : Style.t) (st : Style.store)
          (arr : list string),
      st !! Style._chain this = Some arr ->
      FragmentTable.method a this st
      = (this, <[Style._chain this := (arr ++ [FragmentTable.fragment a])%list]> st))
  /\ (forall (attrs : list FragmentTable.attribute) (st : Style.store),
         fst (Style.bind (Style.new None)
                (fun s => Style.bind (chain_calls attrs s) Style.render) st)
         = String.concat "" (map FragmentTable.fragment attrs))
  /\ (forall st : Style.store,
         fst (Style.bind (Style.new None)
                (fun s => Style.bind (Style.bold s)
                   (fun s1 => Style.bind (Style.underline s1) Style.render)) st)
         = (Style.x1b "[1m" ++ Style.x1b "[4m")%string).
Proof.
  split; [|split].
  - intros a this st arr. apply method_appends.
  - intros attrs st.
    destruct (new_spec None st [] eq_refl) as (t & st' & E & _ & L & _).
    unfold Style.bind at 1. rewrite E.
    unfold Style.bind. rewrite (chain_calls_appends attrs t st' [] L).
    rewrite (render_lookup t _ (map FragmentTable.fragment attrs))
      by apply lookup_insert_eq.
    reflexivity.
  - intros st.
    destruct (new_spec None st [] eq_refl) as (t & st' & E & _ & L & _).
    unfold Style.bind at 1. rewrite E.
    unfold Style.bind.
    change (Style.bold t) with (FragmentTable.method FragmentTable.Bold t).
    rewrite (method_appends FragmentTable.Bold t st' [] L).
    change (Style.underline t) with (FragmentTable.method FragmentTable.Underline t).
    rewrite (method_appends FragmentTable.Underline t _ [FragmentTable.fragment FragmentTable.Bold])
      by apply lookup_insert_eq.
    rewrite (render_lookup t _
               [FragmentTable.fragment FragmentTable.Bold; FragmentTable.fragment FragmentTable.Underline])
      by apply lookup_insert_eq.
    reflexivity.
Qed.

Lemma style_methods_append_in_order_witness :
  FragmentTable.method FragmentTable.Italic (Style.mk 0) {[ 0%nat := [Style.x1b "[1m"] ]}
  = (Style.mk 0,
     <[ 0%nat := [Style.x1b "[1m"; Style.x1b "[3m"] ]>
       {[ 0%nat := [Style.x1b "[1m"] ]}).
Proof.
  apply (proj1 style_methods_append_in_order FragmentTable.Italic (Style.mk 0)
           {[ 0%nat := [Style.x1b "[1m"] ]} [Style.x1b "[1m"]).
  reflexivity.
Defined.

(** C9. Copy-constructing [t] from a style [s] and calling [italic()]
    on [t]: [t] owns an array of its own, [t] renders to [s]'s render
    followed by the italic fragment, and [s]'s array and render, like every
    array that existed before, are unchanged. *)
Theorem copy_constructor_does_not_share :
  forall (s : Style.t) (st : Style.store) (arr : list string),
    st !! Style._chain s = Some arr ->
    exists (t : Style.t) (st1 st2 : Style.store),
      Style.new (Some s) st = (t, st1)
      /\ Style.italic t st1 = (t, st2)
      /\ Style._chain t <> Style._chain s
      /\ st2 !! Style._chain t = Some (arr ++ [Style.x1b "[3m"])%list
      /\ fst (Style.render t st2)
         = (fst (Style.render s st) ++ Style.x1b "[3m")%string
      /\ st2 !! Style._chain s = Some arr
      /\ fst (Style.render s st2) = fst (Style.render s st)
      /\ (forall l : nat, is_Some (st !! l) -> st2 !! l = st !! l).
Proof.
  intros s st arr H.
  destruct (new_spec (Some s) st arr H) as (t & st1 & E & N & L & F).
  assert (Hne : Style._chain t <> Style._chain s).
  { intros Heq. rewrite Heq, H in N. discriminate N. }
  exists t, st1, (<[Style._chain t := (arr ++ [Style.x1b "[3m"])%list]> st1).
  split; [exact E|].
  split; [exact (method_appends FragmentTable.Italic t st1 arr L)|].
  split; [exact Hne|].
  split; [apply lookup_insert_eq|].
  assert (Hs : <[Style._chain t := (arr ++ [Style.x1b "[3m"])%list]> st1
               !! Style._chain s = Some arr).
  { rewrite lookup_insert_ne by exact Hne.
    rewrite F by (rewrite H; eauto). exact H. }
  split; [|split; [exact Hs|split]].
  - rewrite (render_lookup t _ (arr ++ [Style.x1b "[3m"])%list)
      by apply lookup_insert_eq.
    rewrite (render_lookup s st arr H). simpl fst. apply concat_snoc.
  - rewrite (render_lookup s _ arr Hs), (render_lookup s st arr H).
    reflexivity.
  - intros l Hl.
    rewrite lookup_insert_ne.
    + now apply F.
    + intros Heq. rewrite Heq in N. rewrite N in Hl. now destruct Hl.
Qed.

Lemma copy_constructor_does_not_share_witness :
  exists (t : Style.t) (st1 st2 : Style.store),
    Style.new (Some (Style.mk 0)) {[ 0%nat := [Style.x1b "[1m"] ]} = (t, st1)
    /\ Style.italic t st1 = (t, st2)
    /\ st2 !! 0%nat = Some [Style.x1b "[1m"].
Proof.
  assert (H : ({[ 0%nat := [Style.x1b "[1m"] ]} : Style.store)
               !! Style._chain (Style.mk 0) = Some [Style.x1b "[1m"])
    by reflexivity.
  destruct (copy_constructor_does_not_share (Style.mk 0)
              {[ 0%nat := [Style.x1b "[1m"] ]} [Style.x1b "[1m"] H)
    as (t & st1 & st2 & E & I & _ & _ & _ & S & _).
  exists t, st1, st2. repeat split; assumption.
Defined.

(** * Further properties of the code *)

(** ** Decimal rendering and fields *)

Section Rendering.

Lemma to_int_not_nil (z : Z) :
  Z.to_int z <> Decimal.Pos Decimal.Nil /\ Z.to_int z <> Decimal.Neg Decimal.Nil.
Proof.
  split; intros E;
    (assert (Hz : z = 0) by (rewrite <- (DecimalZ.of_to z), E; reflexivity));
    rewrite Hz in E; discriminate E.
Qed.

(** Two integers with the same decimal rendering are equal. *)
Lemma show_int_inj (n m : Z) : JS.show_int n = JS.show_int m -> n = m.
Proof.
  unfold JS.show_int. intros E.
  destruct (to_int_not_nil n) as [Pn Nn].
  destruct (to_int_not_nil m) as [Pm Nm].
  apply (f_equal NilZero.int_of_string) in E.
  rewrite !NilZero.isi in E by assumption.
  injection E as E. now apply DecimalZ.to_int_inj.
Qed.

Lemma to_string_semicolon_free (v : JS.value) :
  passes_guard v = true -> semicolon_free (JS.to_string v) = true.
Proof.
  destruct v as [z| |]; simpl; intros H; [|reflexivity..].
  apply show_int_byte_semicolon_free. unfold byte. lia.
Qed.

Lemma decimal_below_false (f : string) (bound : nat) :
  (forall n : Z, JS.show_int n <> f) -> Payload.decimal_below bound f = false.
Proof.
  intros H. unfold Payload.decimal_below.
  apply not_true_is_false. intros E.
  apply existsb_exists in E as (n & _ & E).
  apply String.eqb_eq in E. now apply (H (Z.of_nat n)).
Qed.

Lemma show_int_digits_or_minus (n : Z) :
  exists a t, JS.show_int n = String a t
              /\ ((48 <=? JS.code a) && (JS.code a <=? 57) || (JS.code a =? 45)) = true.
Proof.
  unfold JS.show_int.
  destruct (Z.to_int n) as [d|d] eqn:E.
  - destruct d; simpl; eauto.
  - simpl. eauto.
Qed.

Lemma show_int_not_word (n : Z) :
  JS.show_int n <> "NaN" /\ JS.show_int n <> "undefined".
Proof.
  destruct (show_int_digits_or_minus n) as (a & t & E & H).
  rewrite E. split; intros F; injection F as -> _; discriminate H.
Qed.

Lemma to_string_decimal (v : JS.value) :
  passes_guard v = true ->
  Payload.decimal_below 256 (JS.to_string v) = is_int v.
Proof.
  destruct v as [z| |]; simpl; intros H.
  - apply show_int_below. lia.
  - apply decimal_below_false. intros n. apply show_int_not_word.
  - apply decimal_below_false. intros n. apply show_int_not_word.
Qed.

(** The fields of a 24-bit suffix, whatever stands in its three places. *)
Lemma fields_rgb (a b c : string) :
  semicolon_free a = true -> semicolon_free b = true ->
  semicolon_free c = true ->
  Payload.fields ("8;2;" ++ a ++ ";" ++ b ++ ";" ++ c) = ["8"; "2"; a; b; c].
Proof.
  intros Ha Hb Hc.
  change ("8;2;" ++ a ++ ";" ++ b ++ ";" ++ c)%string
    with ("8" ++ String ";" ("2" ++ String ";"
            (a ++ String ";" (b ++ String ";" c))))%string.
  rewrite !fields_app by (reflexivity || assumption).
  now rewrite fields_semicolon_free by assumption.
Qed.

Lemma legal_rgb_fields (a b c : string) :
  semicolon_free a = true -> semicolon_free b = true ->
  semicolon_free c = true ->
  Payload.legal ("8;2;" ++ a ++ ";" ++ b ++ ";" ++ c)
  = Payload.decimal_below 256 a && Payload.decimal_below 256 b
    && Payload.decimal_below 256 c.
Proof.
  intros Ha Hb Hc. unfold Payload.legal.
  now rewrite fields_rgb by assumption.
Qed.

Lemma fromRGB_ok_string (r g b : JS.value) (c : Color.t) :
  Color.fromRGB r g b = JS.Ok c ->
  (passes_guard r = true /\ passes_guard g = true /\ passes_guard b = true)
  /\ Color.ansi c
     = ("8;2;" ++ JS.to_string r ++ ";" ++ JS.to_string g ++ ";"
          ++ JS.to_string b)%string.
Proof.
  unfold Color.fromRGB.
  destruct (JS.lt r 0) eqn:E1; [discriminate|].
  destruct (JS.gt r 255) eqn:E2; [discriminate|].
  destruct (JS.lt g 0) eqn:E3; [discriminate|].
  destruct (JS.gt g 255) eqn:E4; [discriminate|].
  destruct (JS.lt b 0) eqn:E5; [discriminate|].
  destruct (JS.gt b 255) eqn:E6; [discriminate|].
  simpl. intros H; injection H as <-. split; [|reflexivity].
  destruct r, g, b; simpl in *; repeat split; lia.
Qed.

End Rendering.

(** ** More on the hexadecimal conversion and the numeric factories *)

Section HexPairs.

Lemma hex_digit_inv (a : ascii) (d : Z) :
  JS.hex_digit a = Some d ->
  0 <= d <= 15 /\ JS.dot a = true /\ JS.white_space a = false
  /\ (JS.code a =? 45) = false /\ (JS.code a =? 43) = false
  /\ (JS.code a =? 120) = false /\ (JS.code a =? 88) = false.
Proof.
  intros H.
  assert (Hx : JS.is_hex a = true) by (unfold JS.is_hex; now rewrite H).
  destruct (is_hex_inv a Hx) as (d' & E & R).
  rewrite H in E. injection E as <-. exact R.
Qed.

(** [parseInt] of two digits is sixteen times the first plus the second. *)
Lemma parseInt16_pair (a b : ascii) (da db : Z) :
  JS.hex_digit a = Some da -> JS.hex_digit b = Some db ->
  JS.parseInt16 (String a (String b EmptyString)) = JS.Int (16 * da + db).
Proof.
  intros Da Db.
  destruct (hex_digit_inv a da Da) as (_ & _ & Wa & Ma & Pa & _ & _).
  destruct (hex_digit_inv b db Db) as (_ & _ & _ & _ & _ & Xb & XXb).
  unfold JS.parseInt16, JS.trim_start, JS.strip_0x.
  rewrite Wa, Ma, Pa, Xb, XXb, andb_false_r.
  unfold JS.digits16. rewrite Da, Db. f_equal; lia.
Qed.

End HexPairs.

(** X1. On a sigil followed by six hexadecimal digits, whatever the sigil
    and the case of the digits, [hexToSVG] returns the three numbers
    [16 * d + d'] of the three digit pairs, each in [0,255]. *)
Theorem hexToSVG_decodes_pairs :
  forall (sigil a1 a2 a3 a4 a5 a6 : ascii) (d1 d2 d3 d4 d5 d6 : Z),
    JS.hex_digit a1 = Some d1 -> JS.hex_digit a2 = Some d2 ->
    JS.hex_digit a3 = Some d3 -> JS.hex_digit a4 = Some d4 ->
    JS.hex_digit a5 = Some d5 -> JS.hex_digit a6 = Some d6 ->
    Util.hexToSVG
      (String sigil (String a1 (String a2 (String a3 (String a4
         (String a5 (String a6 EmptyString)))))))
    = [JS.Int (16 * d1 + d2); JS.Int (16 * d3 + d4); JS.Int (16 * d5 + d6)]
    /\ byte (16 * d1 + d2) /\ byte (16 * d3 + d4) /\ byte (16 * d5 + d6).
Proof.
  intros sigil a1 a2 a3 a4 a5 a6 d1 d2 d3 d4 d5 d6 H1 H2 H3 H4 H5 H6.
  destruct (hex_digit_inv _ _ H1) as (R1 & D1 & _).
  destruct (hex_digit_inv _ _ H2) as (R2 & D2 & _).
  destruct (hex_digit_inv _ _ H3) as (R3 & D3 & _).
  destruct (hex_digit_inv _ _ H4) as (R4 & D4 & _).
  destruct (hex_digit_inv _ _ H5) as (R5 & D5 & _).
  destruct (hex_digit_inv _ _ H6) as (R6 & D6 & _).
  split; [|unfold byte; lia].
  unfold Util.hexToSVG, JS.slice1, JS.match_dot2, JS.scan_dot2.
  rewrite D1, D2, D3, D4, D5, D6. simpl andb. cbv iota.
  unfold map.
  now rewrite (parseInt16_pair _ _ _ _ H1 H2), (parseInt16_pair _ _ _ _ H3 H4),
    (parseInt16_pair _ _ _ _ H5 H6).
Qed.

Lemma hexToSVG_decodes_pairs_witness :
  Util.hexToSVG "#Ff5733" = [JS.Int 255; JS.Int 87; JS.Int 51].
Proof.
  apply (hexToSVG_decodes_pairs "#" "F" "f" "5" "7" "3" "3" 15 15 5 7 3 3);
    reflexivity.
Defined.

(** X2. On arguments that are each an integer, NaN or [undefined],
    [fromRGB] throws exactly when one of them is an integer outside
    [0,255]: [NaN] and [undefined] pass the guard. The colour it then
    builds has a legal payload exactly when all three arguments are
    integers. *)
Theorem fromRGB_guard_and_payload :
  forall r g b : JS.value,
    JS.is_ok (Color.fromRGB r g b)
    = passes_guard r && passes_guard g && passes_guard b
    /\ (forall c : Color.t,
           Color.fromRGB r g b = JS.Ok c ->
           Payload.legal (Color.ansi c) = is_int r && is_int g && is_int b).
Proof.
  intros r g b. split.
  - unfold Color.fromRGB.
    destruct r as [r| |], g as [g| |], b as [b| |]; simpl;
      repeat match goal with
             | |- context [?x <? ?y] => destruct (Z.ltb_spec x y)
             | |- context [?x >? ?y] =>
                 rewrite (Z.gtb_ltb x y); destruct (Z.ltb_spec y x)
             end; simpl;
      repeat match goal with
             | |- context [?x <=? ?y] => destruct (Z.leb_spec x y)
             end; simpl; try reflexivity; lia.
  - intros c H.
    apply fromRGB_ok_string in H as ((Gr & Gg & Gb) & ->).
    rewrite legal_rgb_fields by now apply to_string_semicolon_free.
    now rewrite !to_string_decimal by assumption.
Qed.

Lemma fromRGB_guard_and_payload_witness :
  Payload.legal "8;2;NaN;0;255" = is_int JS.NaN && is_int (JS.Int 0)
                                  && is_int (JS.Int 255).
Proof.
  apply (proj2 (fromRGB_guard_and_payload JS.NaN (JS.Int 0) (JS.Int 255))
           (Color.new "8;2;NaN;0;255")).
  reflexivity.
Defined.

(** X3. [fromRGB] is injective on integers: two successful calls that
    return the same colour were given the same three channels. *)
Theorem fromRGB_injective :
  forall (r g b r' g' b' : Z) (c : Color.t),
    Color.fromRGB (JS.Int r) (JS.Int g) (JS.Int b) = JS.Ok c ->
    Color.fromRGB (JS.Int r') (JS.Int g') (JS.Int b') = JS.Ok c ->
    r = r' /\ g = g' /\ b = b'.
Proof.
  intros r g b r' g' b' c H H'.
  apply fromRGB_ok_string in H as ((Gr & Gg & Gb) & E).
  apply fromRGB_ok_string in H' as ((Gr' & Gg' & Gb') & E').
  rewrite E in E'. apply (f_equal Payload.fields) in E'.
  rewrite !fields_rgb in E' by now apply to_string_semicolon_free.
  simpl in E'. injection E' as Er Eg Eb.
  repeat split; now apply show_int_inj.
Qed.

Lemma fromRGB_injective_witness :
  (1 = 1 /\ 2 = 2 /\ 3 = 3)%Z.
Proof.
  apply (fromRGB_injective 1 2 3 1 2 3 (Color.new "8;2;1;2;3")); reflexivity.
Defined.

(** X4. [from256] succeeds on an integer exactly when it is in [0,255];
    it is injective there, and a colour it returns is neither a palette
    colour nor a colour that [fromRGB] returns. *)
Theorem from256_index_colours :
  (forall n : Z, JS.is_ok (Color.from256 (JS.Int n)) = (0 <=? n) && (n <=? 255))
  /\ (forall (n m : Z) (c : Color.t),
         Color.from256 (JS.Int n) = JS.Ok c ->
         Color.from256 (JS.Int m) = JS.Ok c -> n = m)
  /\ (forall (n : Z) (c : Color.t),
         Color.from256 (JS.Int n) = JS.Ok c ->
         ~ In c palette /\ forall r g b, Color.fromRGB r g b <> JS.Ok c).
Proof.
  split; [|split].
  - intros n. unfold Color.from256; simpl.
    rewrite Z.gtb_ltb.
    destruct (Z.ltb_spec n 0), (Z.ltb_spec 255 n), (Z.leb_spec 0 n),
      (Z.leb_spec n 255); simpl; try reflexivity; lia.
  - intros n m c H H'.
    apply from256_ok_inv in H as [_ ->].
    apply from256_ok_inv in H' as [_ E].
    injection E as E.
    now apply show_int_inj.
  - intros n c H. apply from256_ok_inv in H as [_ ->]. split.
    + unfold palette. simpl. intros F.
      repeat (destruct F as [F|F]; [discriminate F|]). exact F.
    + intros r g b F. apply fromRGB_ok_string in F as (_ & F).
      simpl in F. discriminate F.
Qed.

Lemma from256_index_colours_witness :
  (7 = 7)%Z
  /\ ~ In (Color.new "8;5;7") palette.
Proof.
  destruct from256_index_colours as (_ & Hinj & Hsep).
  split.
  - apply (Hinj 7 7 (Color.new "8;5;7")); reflexivity.
  - apply (Hsep 7 (Color.new "8;5;7")). reflexivity.
Defined.

(** X5. No colour that [fromHex] returns has a legal payload: whenever the
    factory does not throw, the blue channel of its result is
    [undefined]. *)
Theorem fromHex_never_legal :
  forall (hex : string) (c : Color.t),
    Color.fromHex hex = JS.Ok c -> Payload.legal (Color.ansi c) = false.
Proof.
  intros hex c H.
  destruct (JS.test_hex6 hex) eqn:E.
  - destruct (fromHex_six_digits hex E) as (r & g & Hr & Hg & F).
    rewrite F in H. injection H as <-. simpl Color.ansi.
    change ("8;2;" ++ JS.show_int r ++ ";" ++ JS.show_int g ++ ";undefined")%string
      with ("8;2;" ++ JS.show_int r ++ ";" ++ JS.show_int g ++ ";" ++ "undefined")%string.
    rewrite legal_rgb_fields
      by (reflexivity || now apply show_int_byte_semicolon_free).
    rewrite (decimal_below_false "undefined")
      by (intros n; apply show_int_not_word).
    now rewrite andb_false_r.
  - unfold Color.fromHex in H. rewrite E in H. discriminate H.
Qed.

Lemma fromHex_never_legal_witness :
  Payload.legal "8;2;245;115;undefined" = false.
Proof.
  apply (fromHex_never_legal "ff5733" (Color.new "8;2;245;115;undefined")).
  reflexivity.
Defined.

(** ** More on the HSL and HSV conversions *)

Section Conversions.

Local Open Scope Q_scope.

Lemma ltq_le (a b : Q) : b <= a -> JS.ltq a b = false.
Proof.
  intros H. unfold JS.ltq. apply negb_false_iff. now apply Qle_bool_iff.
Qed.


Lemma code_intermediate_zero (c h : Q) : c == 0 -> code_intermediate c h == 0.
Proof. intros H. unfold code_intermediate. rewrite H. ring. Qed.

(** With no chroma the three channels are the rounded offset. *)
Lemma cascade_grey (h c m m0 : Q) :
  c == 0 -> m == m0 ->
  map (to_channel m) (cascade h c (code_intermediate c h))
  = [JS.round (m0 * 255); JS.round (m0 * 255); JS.round (m0 * 255)].
Proof.
  intros Hc Hm.
  assert (K : forall v, v == 0 -> to_channel m v = JS.round (m0 * 255)).
  { intros v Hv. unfold to_channel, JS.round. apply Qfloor_comp.
    rewrite Hv, Hm. ring. }
  pose proof (cascade_Forall (fun v => to_channel m v = JS.round (m0 * 255))
                h c (code_intermediate c h)
                (K _ Hc) (K _ (code_intermediate_zero c h Hc))
                (K 0 (Qeq_refl 0))) as F.
  destruct (cascade_three h c (code_intermediate c h)) as (a & b & d & E).
  rewrite E in F |- *. simpl.
  inversion F as [|? ? Ha F1]; subst.
  inversion F1 as [|? ? Hb F2]; subst.
  inversion F2 as [|? ? Hd _]; subst.
  now rewrite Ha, Hb, Hd.
Qed.

(** Inside the ranges the guards of the HSL factories are all false. *)
Lemma hsl_guards (h s l : Q) :
  within 0 360 h -> within 0 100 s -> within 0 100 l ->
  JS.ltq h 0 || JS.ltq 360 h = false
  /\ JS.ltq s 0 || JS.ltq 100 s = false
  /\ JS.ltq l 0 || JS.ltq 100 l = false.
Proof.
  intros [H0 H1] [S0 S1] [L0 L1].
  now rewrite !ltq_le by assumption.
Qed.

(** Past its guards, the ANSI factory builds the colour of the channels of
    [Util.hslToRgb]. *)
Lemma fromHSL_of_channels (h s l : Q) (r g b : Z) :
  within 0 360 h -> within 0 100 s -> within 0 100 l ->
  Util.hslToRgb h s l = [r; g; b] ->
  Color.fromHSL h s l = Color.fromRGB (JS.Int r) (JS.Int g) (JS.Int b).
Proof.
  intros Hh Hs Hl E.
  destruct (hsl_guards h s l Hh Hs Hl) as (G1 & G2 & G3).
  unfold Color.fromHSL. rewrite G1, G2, G3. cbv zeta.
  rewrite hslToRgb_cascade in E. cbv zeta in E.
  change (if JS.ltq h 60 then _ else _)
    with (cascade h ((1 - Qabs (2 * (l / 100) - 1)) * (s / 100))
            (code_intermediate ((1 - Qabs (2 * (l / 100) - 1)) * (s / 100)) h)).
  destruct (cascade_three h ((1 - Qabs (2 * (l / 100) - 1)) * (s / 100))
              (code_intermediate ((1 - Qabs (2 * (l / 100) - 1)) * (s / 100)) h))
    as (x & y & z & C).
  rewrite C in E |- *. simpl in E. injection E as <- <- <-.
  reflexivity.
Qed.

End Conversions.

(** X6. For a hue in [0,360] and percentages in [0,100] both HSL factories
    succeed, and both build the colour of the three channels that
    [Util.hslToRgb] computes, which are bytes: the conversion written out
    in the ANSI factory agrees with the one of util.ts. *)
Theorem fromHSL_factories_agree :
  forall h s l : Q,
    within 0 360 h -> within 0 100 s -> within 0 100 l ->
    exists r g b : Z,
      (byte r /\ byte g /\ byte b)
      /\ Util.hslToRgb h s l = [r; g; b]
      /\ Color.fromHSL h s l = JS.Ok (Color.new (rgb_suffix r g b))
      /\ RgbColor.fromHSL h s l
         = JS.Ok (RgbColor.mk (JS.Int r) (JS.Int g) (JS.Int b)).
Proof.
  intros h s l Hh Hs Hl.
  destruct (hslToRgb_bytes h s l) as (r & g & b & E & Hr & Hg & Hb);
    try (apply Hh || apply Hs || apply Hl).
  exists r, g, b. split; [auto|]. split; [exact E|]. split.
  - rewrite (fromHSL_of_channels h s l r g b) by assumption.
    now apply fromRGB_bytes.
  - destruct (hsl_guards h s l Hh Hs Hl) as (G1 & G2 & G3).
    unfold RgbColor.fromHSL. rewrite G1, G2, G3, E. simpl.
    unfold RgbColor.new, byte in *; simpl.
    replace (r <? 0)%Z with false by lia.
    replace (r >? 255)%Z with false by lia.
    replace (g <? 0)%Z with false by lia.
    replace (g >? 255)%Z with false by lia.
    replace (b <? 0)%Z with false by lia.
    replace (b >? 255)%Z with false by lia.
    reflexivity.
Qed.

Lemma fromHSL_factories_agree_witness :
  exists r g b : Z,
    (byte r /\ byte g /\ byte b)
    /\ Util.hslToRgb 360 100 50 = [r; g; b]
    /\ Color.fromHSL 360 100 50 = JS.Ok (Color.new (rgb_suffix r g b))
    /\ RgbColor.fromHSL 360 100 50
       = JS.Ok (RgbColor.mk (JS.Int r) (JS.Int g) (JS.Int b)).
Proof.
  apply fromHSL_factories_agree; unfold within; split;
    (discriminate || reflexivity).
Defined.

(** X7. When the ANSI HSL factory throws, the message is that of the
    first guard that fires, hue before saturation before lightness: the
    hue message when [hue < 0] or [hue > 360]; the saturation message when
    neither holds and [saturation < 0] or [saturation > 100]; the
    lightness message when none of these holds and [lightness < 0] or
    [lightness > 100]. It throws nothing else: the RGB range error of the
    inner [fromRGB] never comes out of it. *)
Theorem fromHSL_error_order :
  forall (h s l : Q) (msg : string),
    Color.fromHSL h s l = JS.Throw msg ->
    (msg = hue_error /\ (h < 0 \/ 360 < h)%Q)
    \/ (msg = saturation_error
        /\ ~ (h < 0)%Q /\ ~ (360 < h)%Q /\ (s < 0 \/ 100 < s)%Q)
    \/ (msg = lightness_error
        /\ ~ (h < 0)%Q /\ ~ (360 < h)%Q /\ ~ (s < 0)%Q /\ ~ (100 < s)%Q
        /\ (l < 0 \/ 100 < l)%Q).
Proof.
  assert (split_guard : forall a b c d : Q,
             JS.ltq a b || JS.ltq c d = true -> (a < b \/ c < d)%Q).
  { intros a b c d G. apply orb_true_iff in G as [G|G];
      apply ltq_true in G; auto. }
  intros h s l msg H.
  destruct (JS.ltq h 0 || JS.ltq 360 h) eqn:G1.
  { left. unfold Color.fromHSL in H. rewrite G1 in H. injection H as <-.
    split; [reflexivity|]. now apply split_guard. }
  apply orb_false_iff in G1 as [A B].
  apply ltq_false in A, B.
  destruct (JS.ltq s 0 || JS.ltq 100 s) eqn:G2.
  { right; left. unfold Color.fromHSL in H.
    rewrite !ltq_le in H by assumption. simpl orb in H. cbv iota in H.
    rewrite G2 in H. injection H as <-.
    split; [reflexivity|].
    split; [now apply Qle_not_lt|]. split; [now apply Qle_not_lt|].
    now apply split_guard. }
  apply orb_false_iff in G2 as [C D].
  apply ltq_false in C, D.
  destruct (JS.ltq l 0 || JS.ltq 100 l) eqn:G3.
  { right; right. unfold Color.fromHSL in H.
    rewrite !(ltq_le h), !(ltq_le 360), !(ltq_le s), !(ltq_le 100 s) in H
      by assumption.
    simpl orb in H. cbv iota in H.
    rewrite G3 in H. injection H as <-.
    split; [reflexivity|].
    repeat (split; [now apply Qle_not_lt|]).
    now apply split_guard. }
  apply orb_false_iff in G3 as [E F].
  apply ltq_false in E, F.
  exfalso.
  destruct (hslToRgb_bytes h s l) as (r & g & b & Eq & Hr & Hg & Hb);
    try assumption.
  rewrite (fromHSL_of_channels h s l r g b) in H
    by (unfold within; auto).
  rewrite fromRGB_bytes in H by assumption. discriminate H.
Qed.

Lemma fromHSL_error_order_witness :
  (saturation_error = hue_error /\ (20 < 0 \/ 360 < 20)%Q)
  \/ (saturation_error = saturation_error
      /\ ~ (20 < 0)%Q /\ ~ (360 < 20)%Q /\ (200 < 0 \/ 100 < 200)%Q)
  \/ (saturation_error = lightness_error
      /\ ~ (20 < 0)%Q /\ ~ (360 < 20)%Q /\ ~ (200 < 0)%Q /\ ~ (100 < 200)%Q
      /\ (50 < 0 \/ 100 < 50)%Q).
Proof.
  apply (fromHSL_error_order 20 200 50 saturation_error). reflexivity.
Defined.


(** X9. Saturation 0 gives a grey, whatever the hue: the three channels of
    [hslToRgb(h, 0, l)] are all [Math.round(l / 100 * 255)], and those of
    [hsvToRgb(h, 0, v)] all [Math.round(v / 100 * 255)]. *)
Theorem zero_saturation_is_grey :
  forall h p : Q,
    let k := JS.round (p / 100 * 255)%Q in
    Util.hslToRgb h 0 p = [k; k; k] /\ Util.hsvToRgb h 0 p = [k; k; k].
Proof.
  intros h p k. subst k. split.
  - rewrite hslToRgb_cascade. cbv zeta.
    apply cascade_grey.
    + assert (K : (0 / 100 == 0)%Q) by reflexivity. rewrite K. ring.
    + assert (K : (0 / 100 == 0)%Q) by reflexivity. rewrite K.
      unfold Qdiv. ring.
  - rewrite hsvToRgb_cascade. cbv zeta.
    apply cascade_grey.
    + assert (K : (0 / 100 == 0)%Q) by reflexivity. rewrite K. ring.
    + assert (K : (0 / 100 == 0)%Q) by reflexivity. rewrite K. ring.
Qed.

(** X10. Lightness 0 is black and lightness 100 is white, and value 0 is
    black, whatever the hue and the saturation. *)
Theorem extreme_lightness_and_value :
  forall h s : Q,
    Util.hslToRgb h s 0 = [0; 0; 0]
    /\ Util.hslToRgb h s 100 = [255; 255; 255]
    /\ Util.hsvToRgb h s 0 = [0; 0; 0].
Proof.
  intros h s. split; [|split].
  - rewrite hslToRgb_cascade. cbv zeta.
    assert (K : (1 - Qabs (2 * (0 / 100) - 1) == 0)%Q) by reflexivity.
    rewrite (cascade_grey h _ _ 0%Q); [reflexivity| |].
    + rewrite K. ring.
    + rewrite K. unfold Qdiv. ring.
  - rewrite hslToRgb_cascade. cbv zeta.
    assert (K : (1 - Qabs (2 * (100 / 100) - 1) == 0)%Q) by reflexivity.
    assert (K1 : (100 / 100 == 1)%Q) by reflexivity.
    rewrite (cascade_grey h _ _ 1%Q); [reflexivity| |].
    + rewrite K. ring.
    + rewrite K, K1. unfold Qdiv. ring.
  - rewrite hsvToRgb_cascade. cbv zeta.
    assert (K : (0 / 100 == 0)%Q) by reflexivity.
    rewrite (cascade_grey h _ _ 0%Q); [reflexivity| |].
    + rewrite K. ring.
    + rewrite K. ring.
Qed.

(** X12. For a hue in [0,360] and percentages in [0,100] the HSV factory
    of the RGB-component class succeeds and stores the three channels of
    [Util.hsvToRgb], which are bytes. *)
Theorem fromHSV_stores_channels :
  forall h s v : Q,
    within 0 360 h -> within 0 100 s -> within 0 100 v ->
    exists r g b : Z,
      (byte r /\ byte g /\ byte b)
      /\ Util.hsvToRgb h s v = [r; g; b]
      /\ RgbColor.fromHSV h s v
         = JS.Ok (RgbColor.mk (JS.Int r) (JS.Int g) (JS.Int b)).
Proof.
  intros h s v Hh Hs Hv.
  destruct (hsvToRgb_bytes h s v) as (r & g & b & E & Hr & Hg & Hb);
    try (apply Hh || apply Hs || apply Hv).
  exists r, g, b. split; [auto|]. split; [exact E|].
  destruct (hsl_guards h s v Hh Hs Hv) as (G1 & G2 & G3).
  unfold RgbColor.fromHSV. rewrite G1, G2, G3, E. simpl.
  unfold RgbColor.new, byte in *; simpl.
  replace (r <? 0) with false by lia.
  replace (r >? 255) with false by lia.
  replace (g <? 0) with false by lia.
  replace (g >? 255) with false by lia.
  replace (b <? 0) with false by lia.
  replace (b >? 255) with false by lia.
  reflexivity.
Qed.

Lemma fromHSV_stores_channels_witness :
  exists r g b : Z,
    (byte r /\ byte g /\ byte b)
    /\ Util.hsvToRgb 0 100 100 = [r; g; b]
    /\ RgbColor.fromHSV 0 100 100
       = JS.Ok (RgbColor.mk (JS.Int r) (JS.Int g) (JS.Int b)).
Proof.
  apply fromHSV_stores_channels; unfold within; split;
    (discriminate || reflexivity).
Defined.

(** ** More on the bounded random integer *)



(** ** More on style chains *)

Section StyleCalls.

Implicit Types (st : Style.store) (this : Style.t) (arr : list string).

Lemma perform_appends (c : Calls.call) this st arr :
  st !! Style._chain this = Some arr ->
  Calls.perform c this st
  = (this, <[Style._chain this := (arr ++ [Calls.appended c])%list]> st).
Proof.
  intros H. destruct c as [a|col|col|col|col|col]; simpl.
  - now apply method_appends.
  - unfold Style.foreground, Style.bind, Style.ret.
    now rewrite (push_insert _ _ _ _ H).
  - unfold Style.color, Style.foreground, Style.bind, Style.ret.
    now rewrite (push_insert _ _ _ _ H).
  - unfold Style.fg, Style.foreground, Style.bind, Style.ret.
    now rewrite (push_insert _ _ _ _ H).
  - unfold Style.background, Style.bind, Style.ret.
    now rewrite (push_insert _ _ _ _ H).
  - unfold Style.bg, Style.background, Style.bind, Style.ret.
    now rewrite (push_insert _ _ _ _ H).
Qed.

Lemma perform_all_appends (cs : list Calls.call) this st arr :
  st !! Style._chain this = Some arr ->
  Calls.perform_all cs this st
  = (this,
     <[Style._chain this := (arr ++ map Calls.appended cs)%list]> st).
Proof.
  revert st arr.
  induction cs as [|c rest IH]; intros st arr H; simpl.
  - unfold Style.ret. rewrite app_nil_r. now rewrite insert_id.
  - unfold Style.bind. rewrite (perform_appends c _ _ _ H).
    rewrite (IH _ (arr ++ [Calls.appended c])%list)
      by apply lookup_insert_eq.
    rewrite insert_insert_eq, <- app_assoc. reflexivity.
Qed.

Lemma appended_sgr_shaped (c : Calls.call) : Calls.sgr_shaped (Calls.appended c).
Proof.
  unfold Calls.sgr_shaped.
  destruct c as [a|col|col|col|col|col]; simpl.
  - destruct a;
      [ exists "2" | exists "22" | exists "1" | exists "3" | exists "4"
      | exists "53" | exists "9" | exists "8" | exists "7" ]; reflexivity.
  - exists ("3" ++ Color.ansi col)%string. reflexivity.
  - exists ("3" ++ Color.ansi col)%string. reflexivity.
  - exists ("3" ++ Color.ansi col)%string. reflexivity.
  - exists ("4" ++ Color.ansi col)%string. reflexivity.
  - exists ("4" ++ Color.ansi col)%string. reflexivity.
Qed.

End StyleCalls.

(** X15. Every chaining method, the colour methods and their synonyms
    included, appends exactly its own fragment and returns the same style:
    after any sequence of calls the array of the style holds its former
    fragments followed by the fragments of the calls, in call order, and
    no other array has changed. [color] and [fg] append what [foreground]
    appends, [bg] what [background] appends. *)
Theorem calls_append_in_order :
  forall (cs : list Calls.call) (this : Style.t) (st : Style.store)
         (arr : list string),
    st !! Style._chain this = Some arr ->
    Calls.perform_all cs this st
    = (this,
       <[Style._chain this := (arr ++ map Calls.appended cs)%list]> st).
Proof.
  intros cs this st arr. apply perform_all_appends.
Qed.

Lemma calls_append_in_order_witness :
  Calls.perform_all [Calls.Attribute FragmentTable.Bold; Calls.Fg Color.red]
    (Style.mk 0) {[ 0%nat := [Style.x1b "[4m"] ]}
  = (Style.mk 0,
     <[ 0%nat := [Style.x1b "[4m"; Style.x1b "[1m"; Style.x1b "[31m"] ]>
       {[ 0%nat := [Style.x1b "[4m"] ]}).
Proof.
  apply (calls_append_in_order
           [Calls.Attribute FragmentTable.Bold; Calls.Fg Color.red]
           (Style.mk 0) {[ 0%nat := [Style.x1b "[4m"] ]} [Style.x1b "[4m"]).
  reflexivity.
Defined.

(** X16. A style built by [new Style()] and any sequence of calls holds as
    many fragments as calls were made, and each of them is an escape
    sequence of the form [\x1b[ ... m]: in particular the chain never holds
    an empty fragment. *)
Theorem built_chain_is_sgr_shaped :
  forall (cs : list Calls.call) (st : Style.store),
    exists (t : Style.t) (st' : Style.store) (arr : list string),
      Style.bind (Style.new None) (Calls.perform_all cs) st = (t, st')
      /\ st' !! Style._chain t = Some arr
      /\ List.length arr = List.length cs
      /\ Forall Calls.sgr_shaped arr
      /\ Forall (fun f => f <> EmptyString) arr.
Proof.
  intros cs st.
  destruct (new_spec None st [] eq_refl) as (t & st1 & E & _ & L & _).
  exists t, (<[Style._chain t := map Calls.appended cs]> st1),
    (map Calls.appended cs).
  split; [|split; [|split; [|split]]].
  - unfold Style.bind. rewrite E.
    now rewrite (perform_all_appends cs t st1 [] L).
  - apply lookup_insert_eq.
  - apply length_map.
  - apply Forall_map, Forall_forall. intros c _. apply appended_sgr_shaped.
  - apply Forall_map, Forall_forall. intros c _.
    destruct (appended_sgr_shaped c) as (body & ->). discriminate.
Qed.

(** X17. Calls on two styles that own different arrays are independent:
    made in either order they leave the same store. *)
Theorem calls_on_distinct_styles_commute :
  forall (c1 c2 : Calls.call) (s t : Style.t) (st : Style.store)
         (a b : list string),
    st !! Style._chain s = Some a ->
    st !! Style._chain t = Some b ->
    Style._chain s <> Style._chain t ->
    snd (Style.bind (Calls.perform c1 s) (fun _ => Calls.perform c2 t) st)
    = snd (Style.bind (Calls.perform c2 t) (fun _ => Calls.perform c1 s) st).
Proof.
  intros c1 c2 s t st a b Hs Ht Hne.
  unfold Style.bind.
  rewrite (perform_appends c1 s st a Hs), (perform_appends c2 t st b Ht).
  rewrite (perform_appends c2 t _ b) by (rewrite lookup_insert_ne; assumption).
  rewrite (perform_appends c1 s _ a)
    by (rewrite lookup_insert_ne; [assumption | now apply not_eq_sym]).
  simpl. apply insert_insert_ne. now apply not_eq_sym.
Qed.

Lemma calls_on_distinct_styles_commute_witness :
  snd (Style.bind (Calls.perform (Calls.Bg Color.blue) (Style.mk 0))
         (fun _ => Calls.perform (Calls.Attribute FragmentTable.Italic)
                     (Style.mk 1))
         (<[ 1%nat := [] ]> {[ 0%nat := [] ]}))
  = snd (Style.bind (Calls.perform (Calls.Attribute FragmentTable.Italic)
                       (Style.mk 1))
           (fun _ => Calls.perform (Calls.Bg Color.blue) (Style.mk 0))
           (<[ 1%nat := [] ]> {[ 0%nat := [] ]})).
Proof.
  apply (calls_on_distinct_styles_commute _ _ (Style.mk 0) (Style.mk 1)
           (<[ 1%nat := [] ]> {[ 0%nat := [] ]}) [] []);
    [reflexivity | reflexivity | discriminate].
Defined.

(** X18. The constructor never hands out an array that is already in the
    store: the new style owns a fresh array, empty for [new Style()] and
    holding the fragments of [s] for [new Style(s)], and every array that
    existed before, the one of [s] included, is unchanged. *)
Theorem constructor_allocates_fresh_array :
  (forall st : Style.store,
      exists (t : Style.t) (st' : Style.store),
        Style.new None st = (t, st')
        /\ st !! Style._chain t = None
        /\ st' !! Style._chain t = Some []
        /\ (forall l : nat, is_Some (st !! l) -> st' !! l = st !! l))
  /\ (forall (s : Style.t) (st : Style.store) (arr : list string),
         st !! Style._chain s = Some arr ->
         exists (t : Style.t) (st' : Style.store),
           Style.new (Some s) st = (t, st')
           /\ st !! Style._chain t = None
           /\ st' !! Style._chain t = Some arr
           /\ st' !! Style._chain s = Some arr
           /\ (forall l : nat, is_Some (st !! l) -> st' !! l = st !! l)).
Proof.
  split.
  - intros st. apply (new_spec None st [] eq_refl).
  - intros s st arr H.
    destruct (new_spec (Some s) st arr H) as (t & st' & E & N & L & F).
    exists t, st'. repeat split; try assumption.
    rewrite F by (rewrite H; eauto). exact H.
Qed.

Lemma constructor_allocates_fresh_array_witness :
  exists (t : Style.t) (st' : Style.store),
    Style.new (Some (Style.mk 0)) {[ 0%nat := [Style.x1b "[1m"] ]} = (t, st')
    /\ st' !! Style._chain t = Some [Style.x1b "[1m"].
Proof.
  assert (H : ({[ 0%nat := [Style.x1b "[1m"] ]} : Style.store)
               !! Style._chain (Style.mk 0) = Some [Style.x1b "[1m"])
    by reflexivity.
  destruct (proj2 constructor_allocates_fresh_array (Style.mk 0)
              {[ 0%nat := [Style.x1b "[1m"] ]} [Style.x1b "[1m"] H)
    as (t & st' & E & _ & L & _).
  exists t, st'. split; assumption.
Defined.

(** ** The RGB-component class *)

(** X19. On arguments that are each an integer, NaN or [undefined], the
    constructor of the RGB-component class throws exactly when one of them
    is an integer outside [0,255] ([NaN] and [undefined] pass its guard),
    and a colour it builds holds the three arguments unchanged: reading
    the channels back returns what was given. *)
Theorem rgb_constructor_round_trip :
  forall r g b : JS.value,
    JS.is_ok (RgbColor.new r g b)
    = passes_guard r && passes_guard g && passes_guard b
    /\ (forall c : RgbColor.t,
           RgbColor.new r g b = JS.Ok c ->
           RgbColor.red c = r /\ RgbColor.green c = g /\ RgbColor.blue c = b).
Proof.
  intros r g b. split.
  - unfold RgbColor.new.
    destruct r as [r| |], g as [g| |], b as [b| |]; simpl;
      repeat match goal with
             | |- context [?x <? ?y] => destruct (Z.ltb_spec x y)
             | |- context [?x >? ?y] =>
                 rewrite (Z.gtb_ltb x y); destruct (Z.ltb_spec y x)
             end; simpl;
      repeat match goal with
             | |- context [?x <=? ?y] => destruct (Z.leb_spec x y)
             end; simpl; try reflexivity; lia.
  - intros c. unfold RgbColor.new.
    destruct (_ || _); [discriminate|].
    intros H; injection H as <-. now repeat split.
Qed.

Lemma rgb_constructor_round_trip_witness :
  RgbColor.red (RgbColor.mk (JS.Int 0) (JS.Int 128) (JS.Int 255)) = JS.Int 0
  /\ RgbColor.green (RgbColor.mk (JS.Int 0) (JS.Int 128) (JS.Int 255))
     = JS.Int 128
  /\ RgbColor.blue (RgbColor.mk (JS.Int 0) (JS.Int 128) (JS.Int 255))
     = JS.Int 255.
Proof.
  apply (proj2 (rgb_constructor_round_trip (JS.Int 0) (JS.Int 128) (JS.Int 255))).
  reflexivity.
Defined.
